(** * solar_system_orbits.py: closest-approach scan, Hohmann transfer
      times and the radial exaggeration transform

    A shallow embedding of [src/solar_system_orbits.py].

    Conventions of the model.
    - numpy / Python floating-point values are modelled by the real
      numbers [R]: [np.hypot], [np.log1p], [np.arctan2], [np.cos],
      [np.sin], [math.sqrt] and [math.pi] are their exact mathematical
      counterparts.  Rounding, infinities and NaN are outside the model;
      the only non-finite value the code creates itself, the initial
      [np.inf] of [best_dist], is kept as a constructor of [edist].
    - Python exceptions are the constructor [Raised] of [result].
    - [print] and the pyplot calls that receive computed data are
      recorded, in program order, in a trace of [event]s.  Purely
      cosmetic pyplot calls ([figure], [title], [xlabel], [ylabel],
      [grid], [tight_layout]) take no computed data and are not traced.
    - The ephemeris ([eph], [ts]) is the parameter [observe_au] of the
      section [Provider]. *)

From Stdlib Require Import Reals Lra Lia ZArith List String Bool.
From Stdlib Require Import DecimalString.
Import ListNotations.

Open Scope Z_scope.

(* ------------------------------------------------------------------ *)
(** ** Exceptions, results and the trace monad *)

Inductive exn : Type :=
| DataUnavailable   (* the ephemeris cannot resolve the epoch *)
| ValueError        (* datetime(): year out of range; math.sqrt: domain *)
| OverflowError     (* datetime + timedelta leaves 1..9999 *)
| AttributeError.   (* None.strftime *)

Inductive result (A : Type) : Type :=
| Ok (a : A)
| Raised (e : exn).

Arguments Ok {A} a.
Arguments Raised {A} e.

(** Calendar dates (the [datetime] objects of the program always carry
    midnight, so only year, month and day are kept). *)
Record date : Type := mkDate { year : Z; month : Z; day : Z }.

(** [best_dist] starts at [np.inf] and is afterwards a sampled distance. *)
Inductive edist : Type :=
| Inf
| Fin (r : R).

Inductive event : Type :=
| EvProgress (y : Z) (d : date) (dist : edist)
    (* print(f"{year}: closest approach on {best_date:%Y-%m-%d} at {best_dist:.3f} AU") *)
| EvPlot (xs : list Z) (ys : list edist)        (* plt.plot(years, dists, ...) *)
| EvPlotDays (xs : list Z) (ys : list R)        (* plt.plot(years, transfer_days, ...) *)
| EvText (x : Z) (y : edist) (label : string)   (* plt.text on the distance chart *)
| EvTextDays (x : Z) (y : R) (label : string)   (* plt.text on the time chart *)
| EvSavefig (fname : string)                    (* plt.savefig(fname, dpi=150) *)
| EvSaved (fname : string).                     (* print(f"Saved ... chart to {fname}") *)

(** A computation yields a value or an exception, together with the
    events it emitted before finishing. *)
Definition M (A : Type) : Type := (result A * list event)%type.

Definition ret {A} (a : A) : M A := (Ok a, []).

Definition raise {A} (e : exn) : M A := (Raised e, []).

Definition emit (ev : event) : M unit := (Ok tt, [ev]).

Definition bind {A B} (m : M A) (k : A -> M B) : M B :=
  match m with
  | (Ok a, w) => let (r, w') := k a in (r, w ++ w')
  | (Raised e, w) => (Raised e, w)
  end.

Definition lift {A} (r : result A) : M A := (r, []).

Declare Scope monad_scope.
Delimit Scope monad_scope with monad.
Notation "x <- m ;; k" := (bind m (fun x => k))
  (at level 61, m at next level, right associativity) : monad_scope.
Notation "' pat <- m ;; k" := (bind m (fun x => match x with pat => k end))
  (at level 61, pat pattern, m at next level, right associativity) : monad_scope.
Notation "m ;;; k" := (bind m (fun _ => k))
  (at level 61, right associativity) : monad_scope.
Open Scope monad_scope.

(** [for x in xs: s = body(x, s)] *)
Fixpoint for_each {A S} (xs : list A) (body : A -> S -> M S) (s : S) : M S :=
  match xs with
  | [] => ret s
  | x :: xs' => s' <- body x s ;; for_each xs' body s'
  end.

(** [range(lo, hi)] on Python integers. *)
Definition range (lo hi : Z) : list Z :=
  map (fun i => lo + Z.of_nat i) (seq 0 (Z.to_nat (hi - lo))).

(* ------------------------------------------------------------------ *)
(** ** datetime and timedelta *)

Definition MINYEAR : Z := 1.
Definition MAXYEAR : Z := 9999.

Definition is_leap (y : Z) : bool :=
  (y mod 4 =? 0) && (negb (y mod 100 =? 0) || (y mod 400 =? 0)).

Definition days_in_month (y m : Z) : Z :=
  if m =? 2 then (if is_leap y then 29 else 28)
  else if (m =? 4) || (m =? 6) || (m =? 9) || (m =? 11) then 30
  else 31.

Definition days_in_year (y : Z) : Z := if is_leap y then 366 else 365.

(** [datetime(year, 1, 1)] *)
Definition datetime_jan1 (y : Z) : result date :=
  if (MINYEAR <=? y) && (y <=? MAXYEAR) then Ok (mkDate y 1 1)
  else Raised ValueError.

Definition next_day (d : date) : date :=
  if day d <? days_in_month (year d) (month d)
  then mkDate (year d) (month d) (day d + 1)
  else if month d <? 12
       then mkDate (year d) (month d + 1) 1
       else mkDate (year d + 1) 1 1.

Fixpoint plus_days (d : date) (n : nat) : date :=
  match n with
  | O => d
  | S n' => next_day (plus_days d n')
  end.

(** [d + timedelta(days=n)] for [n >= 0]: the calendar date [n] days
    later, or [OverflowError] when it lies after year 9999. *)
Definition add_days (d : date) (n : nat) : result date :=
  let d' := plus_days d n in
  if year d' <=? MAXYEAR then Ok d' else Raised OverflowError.

(** Dates compare chronologically. *)
Definition date_le (a b : date) : Prop :=
  year a < year b \/
  (year a = year b /\ (month a < month b \/ (month a = month b /\ day a <= day b))).

(** [str(n)] for a Python [int]. *)
Definition str_int (n : Z) : string := NilZero.string_of_int (Z.to_int n).

Definition month_abbr (m : Z) : string :=
  match m with
  | 1 => "Jan"%string | 2 => "Feb"%string | 3 => "Mar"%string
  | 4 => "Apr"%string | 5 => "May"%string | 6 => "Jun"%string
  | 7 => "Jul"%string | 8 => "Aug"%string | 9 => "Sep"%string
  | 10 => "Oct"%string | 11 => "Nov"%string | _ => "Dec"%string
  end.

Definition two_digits (n : Z) : string :=
  if n <? 10 then String.append "0" (str_int n) else str_int n.

(** [dt.strftime('%b %d')] *)
Definition strftime_b_d (d : date) : string :=
  String.append (month_abbr (month d))
    (String.append " " (two_digits (day d))).

(* ------------------------------------------------------------------ *)
(** ** Numeric helpers *)

Open Scope R_scope.

(** [np.hypot] *)
Definition hypot (x y : R) : R := sqrt (x * x + y * y).

(** [np.log1p] *)
Definition log1p (x : R) : R := ln (1 + x).

(** [np.arctan2(y, x)], the angle of the point [(x, y)] in (-pi, pi]. *)
Definition arctan2 (y x : R) : R :=
  if Rlt_dec 0 x then atan (y / x)
  else if Rlt_dec x 0 then
         (if Rle_dec 0 y then atan (y / x) + PI else atan (y / x) - PI)
       else if Rlt_dec 0 y then PI / 2
            else if Rlt_dec y 0 then - (PI / 2)
                 else 0.

(** [math.sqrt]: raises [ValueError] (math domain error) below zero. *)
Definition math_sqrt (x : R) : result R :=
  if Rlt_dec x 0 then Raised ValueError else Ok (sqrt x).

(** Float floor division and modulo by a positive divisor:
    [x // y = floor(x / y)] and [x % y = x - y * floor(x / y)]. *)
Definition floordiv (x y : R) : R := IZR (Int_part (x / y)).

Definition fmod (x y : R) : R := x - y * IZR (Int_part (x / y)).

(** [int(x)] truncates toward zero. *)
Definition py_int (x : R) : Z :=
  if Rle_dec 0 x then Int_part x else (- Int_part (- x))%Z.

(** [dist < best_dist] *)
Definition lt_best (dist : R) (best : edist) : bool :=
  match best with
  | Inf => true
  | Fin b => if Rlt_dec dist b then true else false
  end.

(* ------------------------------------------------------------------ *)
(** ** Configuration *)

Definition AXIS_LIMIT : R := 40.

(** Gravitational parameter of the Sun in AU^3/day^2. *)
Definition GM_SUN : R := 0.0002959122082855911.

(* ------------------------------------------------------------------ *)
(** ** radial_exaggerate *)

Definition radial_exaggerate (x y max_radius : R) : R * R :=
  let r := hypot x y in
  if Req_dec_T r 0 then (0, 0)
  else
    let r_new := log1p r / log1p max_radius * max_radius in
    let theta := arctan2 y x in
    (r_new * cos theta, r_new * sin theta).

(** The default [max_radius=AXIS_LIMIT]. *)
Definition radial_exaggerate_default (x y : R) : R * R :=
  radial_exaggerate x y AXIS_LIMIT.

(* ------------------------------------------------------------------ *)
(** ** The Hohmann transfer time (lines 113-114) *)

Definition transfer_time (r_e r_m : R) : result R :=
  let a_trans := (r_e + r_m) / 2 in
  match math_sqrt (a_trans ^ 3 / GM_SUN) with
  | Ok s => Ok (PI * s)
  | Raised e => Raised e
  end.

(** The point label of the travel-times chart (lines 124-126). *)
Definition time_label (td : R) : string :=
  let months := py_int (floordiv td 30) in
  let days := py_int (fmod td 30) in
  String.append (str_int months)
    (String.append "m" (String.append (str_int days) "d")).

(* ------------------------------------------------------------------ *)
(** ** The ephemeris and compute_launch_windows *)

(** An epoch of the timescale; [ts.utc(y, m, d)] is midnight UTC of the
    calendar day. *)
Definition Epoch : Type := date.

Definition ts_utc (y m d : Z) : Epoch := mkDate y m d.

(** What [compute_launch_windows] has in its local lists when its body
    ends (the Python function itself returns [None]). *)
Record windows : Type := mkWindows {
  w_years : list Z;
  w_dates : list date;
  w_dists : list edist;
  w_transfer_days : list R
}.

(** The spec's ApproachRecord: the entries of [years], [dates] and
    [dists] at one index. *)
Record ApproachRecord : Type := mkApproach {
  ar_year : Z;
  ar_date : date;
  ar_dist : edist
}.

Fixpoint zip3 {A B C} (xs : list A) (ys : list B) (zs : list C)
  : list (A * B * C) :=
  match xs, ys, zs with
  | x :: xs', y :: ys', z :: zs' => (x, y, z) :: zip3 xs' ys' zs'
  | _, _, _ => []
  end.

Definition approach_records (w : windows) : list ApproachRecord :=
  map (fun '(y, d, r) => mkApproach y d r)
      (zip3 (w_years w) (w_dates w) (w_dists w)).

Section Provider.

(** [sun.at(t).observe(eph[name]).position.au]: the heliocentric
    position vector in AU, or [None] when the ephemeris cannot resolve
    the epoch (skyfield raises). *)
Variable observe_au : string -> Epoch -> option (R * R * R).

Definition get_planet_xy (t : Epoch) (name : string) : M (R * R) :=
  match observe_au name t with
  | Some (x, y, _) => ret (x, y)
  | None => raise DataUnavailable
  end.

Definition earth_mars_distance (t : Epoch) : M R :=
  '(x_e, y_e) <- get_planet_xy t "earth" ;;
  '(x_m, y_m) <- get_planet_xy t "mars" ;;
  ret (hypot (x_m - x_e) (y_m - y_e)).

(** Body of the inner loop (lines 82-86). *)
Definition scan_step (d0 : date) (offset : nat)
           (best : option date * edist) : M (option date * edist) :=
  dt <- lift (add_days d0 offset) ;;
  let t := ts_utc (year dt) (month dt) (day dt) in
  dist <- earth_mars_distance t ;;
  if lt_best dist (snd best) then ret (Some dt, Fin dist) else ret best.

(** Body of the outer loop (lines 79-90).  The three appends are
    modelled after the [strftime] of the progress line: when that
    raises, the lists are lost with the frame. *)
Definition scan_year (y : Z) (acc : list Z * list date * list edist)
  : M (list Z * list date * list edist) :=
  let '(years, dates, dists) := acc in
  d0 <- lift (datetime_jan1 y) ;;
  '(best_date, best_dist) <-
      for_each (seq 0 366) (scan_step d0) (None, Inf) ;;
  match best_date with
  | None => raise AttributeError
  | Some bd =>
      emit (EvProgress y bd best_dist) ;;;
      ret (years ++ [y], dates ++ [bd], dists ++ [best_dist])
  end.

(** Lines 93-104. *)
Definition plot_distance_chart (years : list Z) (dates : list date)
           (dists : list edist) (dist_chart : string) : M unit :=
  emit (EvPlot years dists) ;;;
  for_each (zip3 years dists dates)
           (fun '(x, y, dt) _ => emit (EvText x y (strftime_b_d dt))) tt ;;;
  emit (EvSavefig dist_chart) ;;;
  emit (EvSaved dist_chart).

(** Body of the loop of lines 108-115. *)
Definition transfer_step (dt : date) (transfer_days : list R) : M (list R) :=
  let t := ts_utc (year dt) (month dt) (day dt) in
  '(xe, ye) <- get_planet_xy t "earth" ;;
  let r_e := hypot xe ye in
  '(xm, ym) <- get_planet_xy t "mars" ;;
  let r_m := hypot xm ym in
  T_days <- lift (transfer_time r_e r_m) ;;
  ret (transfer_days ++ [T_days]).

(** Lines 118-131. *)
Definition plot_time_chart (years : list Z) (transfer_days : list R)
           (time_chart : string) : M unit :=
  emit (EvPlotDays years transfer_days) ;;;
  for_each (combine years transfer_days)
           (fun '(x, td) _ => emit (EvTextDays x td (time_label td))) tt ;;;
  emit (EvSavefig time_chart) ;;;
  emit (EvSaved time_chart).

Definition compute_launch_windows (start_year end_year : Z)
           (dist_chart time_chart : string) : M windows :=
  '(years, dates, dists) <-
      for_each (range start_year (end_year + 1)) scan_year ([], [], []) ;;
  plot_distance_chart years dates dists dist_chart ;;;
  transfer_days <- for_each dates transfer_step [] ;;
  plot_time_chart years transfer_days time_chart ;;;
  ret (mkWindows years dates dists transfer_days).

End Provider.

(** The call of the [windows] command line mode, with the default chart
    names. *)
Definition main_windows (observe_au : string -> Epoch -> option (R * R * R))
  : M windows :=
  compute_launch_windows observe_au 2025 2045
    "launch_windows.png" "travel_times.png".

(* ------------------------------------------------------------------ *)
(** ** Specification-level notions used by the theorems *)

Open Scope Z_scope.

(** Days of the year before the first of month [m]. *)
Definition days_before_month (y m : Z) : Z :=
  match m with
  | 1 => 0
  | 2 => 31
  | _ => (if is_leap y then 1 else 0) +
         match m with
         | 3 => 59 | 4 => 90 | 5 => 120 | 6 => 151 | 7 => 181 | 8 => 212
         | 9 => 243 | 10 => 273 | 11 => 304 | _ => 334
         end
  end.

Definition day_of_year (d : date) : Z :=
  days_before_month (year d) (month d) + day d.

Definition valid_date (d : date) : Prop :=
  1 <= month d <= 12 /\ 1 <= day d <= days_in_month (year d) (month d).

(** The epoch sampled for [year] at [offset]: midnight of
    [datetime(year, 1, 1) + timedelta(days=offset)]. *)
Definition sample_epoch (y : Z) (offset : nat) : Epoch :=
  plus_days (mkDate y 1 1) offset.

(** The date lies in the calendar year [y]. *)
Definition in_year (y : Z) (d : date) : Prop :=
  date_le (mkDate y 1 1) d /\ date_le d (mkDate y 12 31).

Open Scope R_scope.

(** The Earth-Mars distance of the raw ephemeris positions at [t], when
    both bodies resolve. *)
Definition dist_at (eph : string -> Epoch -> option (R * R * R))
           (t : Epoch) : option R :=
  match eph "earth"%string t, eph "mars"%string t with
  | Some (x_e, y_e, _), Some (x_m, y_m, _) =>
      Some (hypot (x_m - x_e) (y_m - y_e))
  | _, _ => None
  end.

Definition resolvable (eph : string -> Epoch -> option (R * R * R))
           (t : Epoch) : Prop :=
  dist_at eph t <> None.

(** [rec] is the daily minimum of year [ar_year rec] over the offsets
    0..365, attained first at the record's date. *)
Definition is_first_minimum (eph : string -> Epoch -> option (R * R * R))
           (rec : ApproachRecord) : Prop :=
  exists (k : nat) (m : R),
    (k <= 365)%nat /\
    ar_date rec = sample_epoch (ar_year rec) k /\
    ar_dist rec = Fin m /\
    dist_at eph (sample_epoch (ar_year rec) k) = Some m /\
    (forall j dj, (j <= 365)%nat ->
        dist_at eph (sample_epoch (ar_year rec) j) = Some dj -> m <= dj) /\
    (forall j dj, (j < k)%nat ->
        dist_at eph (sample_epoch (ar_year rec) j) = Some dj -> m < dj).

(** The Hohmann time from the raw heliocentric radii at [t]. *)
Definition raw_transfer_days (eph : string -> Epoch -> option (R * R * R))
           (t : Epoch) : option R :=
  match eph "earth"%string t, eph "mars"%string t with
  | Some (x_e, y_e, _), Some (x_m, y_m, _) =>
      Some (PI * sqrt (((hypot x_e y_e + hypot x_m y_m) / 2) ^ 3 / GM_SUN))
  | _, _ => None
  end.

Definition is_chart_event (ev : event) : bool :=
  match ev with
  | EvProgress _ _ _ => false
  | _ => true
  end.

Definition progress_year (ev : event) : option Z :=
  match ev with
  | EvProgress y _ _ => Some y
  | _ => None
  end.

(** Invariant of the inner loop after the offsets [0 .. n-1]: nothing
    sampled yet, or the stored best is the first minimum so far. *)
Definition scan_inv (eph : string -> Epoch -> option (R * R * R)) (y : Z)
           (n : nat) (best : option date * edist) : Prop :=
  (n = 0%nat /\ best = (None, Inf)) \/
  exists (k : nat) (m : R),
    (k < n)%nat /\
    best = (Some (sample_epoch y k), Fin m) /\
    dist_at eph (sample_epoch y k) = Some m /\
    (forall j dj, (j < n)%nat ->
        dist_at eph (sample_epoch y j) = Some dj -> m <= dj) /\
    (forall j dj, (j < k)%nat ->
        dist_at eph (sample_epoch y j) = Some dj -> m < dj).

(** The progress line printed for a record. *)
Definition progress_of (rec : ApproachRecord) : event :=
  EvProgress (ar_year rec) (ar_date rec) (ar_dist rec).

(** Every epoch sampled for year [y] resolves. *)
Definition year_resolvable (eph : string -> Epoch -> option (R * R * R))
           (y : Z) : Prop :=
  forall k, (k <= 365)%nat -> resolvable eph (sample_epoch y k).

(** The events of the two charts, in program order. *)
Definition distance_chart_events (years : list Z) (dates : list date)
           (dists : list edist) (dist_chart : string) : list event :=
  EvPlot years dists ::
  map (fun '(x, y, dt) => EvText x y (strftime_b_d dt))
      (zip3 years dists dates) ++
  [EvSavefig dist_chart; EvSaved dist_chart].

Definition time_chart_events (years : list Z) (transfer_days : list R)
           (time_chart : string) : list event :=
  EvPlotDays years transfer_days ::
  map (fun '(x, td) => EvTextDays x td (time_label td))
      (combine years transfer_days) ++
  [EvSavefig time_chart; EvSaved time_chart].

(** A synthetic ephemeris: the Earth sits at the origin and Mars on the
    x axis, one AU closer every day. *)
Definition day_index (d : date) : Z :=
  (372 * year d + 31 * month d + day d)%Z.

Definition synthetic_eph (name : string) (t : Epoch) : option (R * R * R) :=
  if String.eqb name "earth" then Some (0, 0, 0)
  else if String.eqb name "mars"
       then Some (IZR (4000000 - day_index t), 0, 0)
       else None.

(** The same ephemeris with coverage ending on 31 December of
    [last_year]. *)
Definition covered_until (last_year : Z) (name : string) (t : Epoch)
  : option (R * R * R) :=
  if (year t <=? last_year)%Z then synthetic_eph name t else None.

(* ------------------------------------------------------------------ *)
(** ** The animation: configuration, state and the frame callback *)

Definition DAYS_PER_FRAME : R := 5.

Definition TRAIL_LENGTH : nat := 50.

Definition TARGET_PLANETS : list string :=
  ["mercury"; "venus"; "earth"; "mars";
   "jupiter barycenter"; "saturn barycenter";
   "uranus barycenter"; "neptune barycenter"]%string.

(** A Python [dict] with string keys, in insertion order. *)
Definition dict (V : Type) : Type := list (string * V).

Fixpoint dict_get {V} (d : dict V) (k : string) : option V :=
  match d with
  | [] => None
  | (k', v) :: d' => if String.eqb k' k then Some v else dict_get d' k
  end.

(** [d[k] = v]: replaces the value of an existing key in place, or
    appends a new key. *)
Fixpoint dict_set {V} (d : dict V) (k : string) (v : V) : dict V :=
  match d with
  | [] => [(k, v)]
  | (k', v') :: d' =>
      if String.eqb k' k then (k', v) :: d' else (k', v') :: dict_set d' k v
  end.

Definition PLANET_COLORS : dict string :=
  [("mercury", "gray"); ("venus", "orange"); ("earth", "blue");
   ("mars", "red"); ("jupiter barycenter", "saddlebrown");
   ("saturn barycenter", "gold"); ("uranus barycenter", "lightblue");
   ("neptune barycenter", "purple")]%string.

(** [{'x': [...], 'y': [...]}], the trail of one planet. *)
Record trail : Type := mkTrail { trail_x : list R; trail_y : list R }.

(** The artists the callback touches and returns. *)
Inductive artist : Type :=
| Scatter (name : string)     (* planet_scatters[name] *)
| TrailLine (name : string)   (* planet_trails[name] *)
| DateText.                   (* date_text *)

Inductive draw_call : Type :=
| SetOffsets (name : string) (x y : R)
    (* planet_scatters[name].set_offsets([[x, y]]) *)
| SetData (name : string) (xs ys : list R)
    (* planet_trails[name].set_data(h['x'], h['y']) *)
| SetText (tt : R).
    (* date_text.set_text(...) for the epoch of TT Julian date [tt] *)

(** The module-level state the callback reads and mutates, with the
    calls made on the artists so far. *)
Record anim_state : Type := mkAnim {
  current_days : R;
  histories : dict trail;
  draw_calls : list draw_call
}.

Inductive anim_exn : Type :=
| EphemerisError   (* the ephemeris cannot resolve the epoch *)
| KeyError         (* a dict has no such key *)
| IndexError.      (* pop from an empty list *)

Inductive outcome (A : Type) : Type :=
| Done (a : A)
| Failed (e : anim_exn).

Arguments Done {A} a.
Arguments Failed {A} e.

(** A computation on the animation state; the state reached is kept
    when an exception is raised, as the mutations are in place. *)
Definition AM (A : Type) : Type := anim_state -> outcome A * anim_state.

Definition aret {A} (a : A) : AM A := fun st => (Done a, st).

Definition afail {A} (e : anim_exn) : AM A := fun st => (Failed e, st).

Definition abind {A B} (m : AM A) (k : A -> AM B) : AM B :=
  fun st =>
    match m st with
    | (Done a, st') => k a st'
    | (Failed e, st') => (Failed e, st')
    end.

Declare Scope anim_scope.
Delimit Scope anim_scope with anim.
Notation "x <- m ;; k" := (abind m (fun x => k))
  (at level 61, m at next level, right associativity) : anim_scope.
Notation "m ;;; k" := (abind m (fun _ => k))
  (at level 61, right associativity) : anim_scope.

Fixpoint afor_each {A} (xs : list A) (body : A -> AM unit) : AM unit :=
  match xs with
  | [] => aret tt
  | x :: xs' => (body x ;;; afor_each xs' body)%anim
  end.

(** [h = histories[name]] *)
Definition lookup_history (name : string) : AM trail :=
  fun st =>
    match dict_get (histories st) name with
    | Some h => (Done h, st)
    | None => (Failed KeyError, st)
    end.

(** An in-place mutation of the trail [histories[name]]. *)
Definition mutate_history (name : string) (f : trail -> outcome trail)
  : AM unit :=
  fun st =>
    match dict_get (histories st) name with
    | None => (Failed KeyError, st)
    | Some h =>
        match f h with
        | Done h' =>
            (Done tt, mkAnim (current_days st)
                             (dict_set (histories st) name h')
                             (draw_calls st))
        | Failed e => (Failed e, st)
        end
    end.

(** [l.pop(0)] *)
Definition pop0 (l : list R) : outcome (list R) :=
  match l with
  | [] => Failed IndexError
  | _ :: l' => Done l'
  end.

Definition append_x (x : R) (h : trail) : outcome trail :=
  Done (mkTrail (trail_x h ++ [x]) (trail_y h)).

Definition append_y (y : R) (h : trail) : outcome trail :=
  Done (mkTrail (trail_x h) (trail_y h ++ [y])).

Definition pop_x (h : trail) : outcome trail :=
  match pop0 (trail_x h) with
  | Done l => Done (mkTrail l (trail_y h))
  | Failed e => Failed e
  end.

Definition pop_y (h : trail) : outcome trail :=
  match pop0 (trail_y h) with
  | Done l => Done (mkTrail (trail_x h) l)
  | Failed e => Failed e
  end.

Definition draw (c : draw_call) : AM unit :=
  fun st => (Done tt, mkAnim (current_days st) (histories st)
                             (draw_calls st ++ [c])).

(** The artists returned by every frame:
    [list(planet_scatters.values()) + list(planet_trails.values()) +
     [date_text]], both dicts holding the target planets in order. *)
Definition frame_artists : list artist :=
  map Scatter TARGET_PLANETS ++ map TrailLine TARGET_PLANETS ++ [DateText].

(** The setup loop (lines 150-156) as far as the state is concerned:
    the colour of each target planet is looked up and its trail is
    created empty. *)
Fixpoint setup_histories (names : list string) (h : dict trail)
  : outcome (dict trail) :=
  match names with
  | [] => Done h
  | name :: names' =>
      match dict_get PLANET_COLORS name with
      | None => Failed KeyError
      | Some _ => setup_histories names' (dict_set h name (mkTrail [] []))
      end
  end.

Section Animator.

(** [sun.at(t).observe(eph[name]).position.au] at the epoch whose TT
    Julian date is [t]; [None] when the ephemeris cannot resolve it. *)
Variable observe_tt : string -> R -> option (R * R * R).

(** [start_time.tt], the TT Julian date of [ts.now()] at start-up. *)
Variable start_tt : R.

(** [get_planet_xy] at an epoch built by [ts.tt_jd]. *)
Definition get_planet_xy_tt (t : R) (name : string) : AM (R * R) :=
  match observe_tt name t with
  | Some (x, y, _) => aret (x, y)
  | None => afail EphemerisError
  end.

(** Body of the loop of [update] (lines 168-175). *)
Definition update_planet (t : R) (name : string) : AM unit :=
  (rxy <- get_planet_xy_tt t name ;;
   let xy := radial_exaggerate (fst rxy) (snd rxy) AXIS_LIMIT in
   h <- lookup_history name ;;
   mutate_history name (append_x (fst xy)) ;;;
   mutate_history name (append_y (snd xy)) ;;;
   h1 <- lookup_history name ;;
   (if (TRAIL_LENGTH <? List.length (trail_x h1))%nat
    then mutate_history name pop_x ;;; mutate_history name pop_y
    else aret tt) ;;;
   draw (SetOffsets name (fst xy) (snd xy)) ;;;
   h2 <- lookup_history name ;;
   draw (SetData name (trail_x h2) (trail_y h2)))%anim.

(** [update(frame)] (lines 163-177). *)
Definition update (frame : nat) : AM (list artist) :=
  ((fun st => (Done tt, mkAnim (current_days st + DAYS_PER_FRAME)
                               (histories st) (draw_calls st))) ;;;
   (fun st =>
      (afor_each TARGET_PLANETS
                 (update_planet (start_tt + current_days st)) ;;;
       (fun st' => draw (SetText (start_tt + current_days st')) st') ;;;
       aret frame_artists) st))%anim.

(** [n] successive calls of the callback, with frame numbers 0..n-1. *)
Fixpoint run_frames (n : nat) : AM unit :=
  match n with
  | O => aret tt
  | S n' => (run_frames n' ;;; update n' ;;; aret tt)%anim
  end.

End Animator.

(** The state at start-up: [current_days = 0.0], an empty trail for
    every target planet, no artist touched. *)
Definition initial_state : anim_state :=
  mkAnim 0 (map (fun name => (name, mkTrail [] [])) TARGET_PLANETS) [].

(** [slide l v]: append [v], then drop the oldest element when the
    trail [xs] that is tested has grown beyond [TRAIL_LENGTH]. *)
Definition slide (xs : list R) (l : list R) (v : R) : list R :=
  if (TRAIL_LENGTH <? S (List.length xs))%nat then tl (l ++ [v]) else l ++ [v].

(** The frames 1..n whose points are on the trail after [n] frames. *)
Definition trail_frames (n : nat) : list nat :=
  seq (S (n - Nat.min n TRAIL_LENGTH)) (Nat.min n TRAIL_LENGTH).

(** The point drawn for [name] in frame [k] (1-based): the exaggerated
    position at [start_tt + 5 k]. *)
Definition shown (observe_tt : string -> R -> option (R * R * R))
           (start_tt : R) (name : string) (k : nat) : R * R :=
  match observe_tt name (start_tt + DAYS_PER_FRAME * INR k) with
  | Some (rx, ry, _) => radial_exaggerate rx ry AXIS_LIMIT
  | None => (0, 0)
  end.

(** What one frame at epoch [t] does to the trail [h] of [name]: the
    exaggerated position is appended to both lists, and the oldest
    point is dropped when the x list has grown beyond [TRAIL_LENGTH]. *)
Definition advance_trail (observe_tt : string -> R -> option (R * R * R))
           (t : R) (name : string) (h : trail) : trail :=
  match observe_tt name t with
  | Some (rx, ry, _) =>
      let xy := radial_exaggerate rx ry AXIS_LIMIT in
      mkTrail (slide (trail_x h) (trail_x h) (fst xy))
              (slide (trail_x h) (trail_y h) (snd xy))
  | None => h
  end.

(** The calls one frame at epoch [t] makes on the artists of [name],
    whose trail was [h] before the frame. *)
Definition planet_calls (observe_tt : string -> R -> option (R * R * R))
           (t : R) (h : dict trail) (name : string) : list draw_call :=
  match observe_tt name t, dict_get h name with
  | Some (rx, ry, _), Some old =>
      let xy := radial_exaggerate rx ry AXIS_LIMIT in
      let new := advance_trail observe_tt t name old in
      [SetOffsets name (fst xy) (snd xy);
       SetData name (trail_x new) (trail_y new)]
  | _, _ => []
  end.

(** Every target planet has a trail, the two lists of a trail have the
    same length, and no trail is longer than [TRAIL_LENGTH]. *)
Definition trails_ok (h : dict trail) : Prop :=
  (forall name, In name TARGET_PLANETS -> dict_get h name <> None) /\
  (forall name tr, dict_get h name = Some tr ->
     List.length (trail_x tr) = List.length (trail_y tr) /\
     (List.length (trail_x tr) <= TRAIL_LENGTH)%nat).

(** Every target planet resolves at the epochs of the frames 1..n. *)
Definition frames_resolve (observe_tt : string -> R -> option (R * R * R))
           (start_tt : R) (n : nat) : Prop :=
  forall k name, (1 <= k <= n)%nat -> In name TARGET_PLANETS ->
    observe_tt name (start_tt + DAYS_PER_FRAME * INR k) <> None.

(** A synthetic ephemeris on TT dates: every planet on the x axis at
    a fixed distance, except that nothing resolves after [last_tt]. *)
Definition fixed_until (last_tt : R) (name : string) (t : R)
  : option (R * R * R) :=
  if Rle_dec t last_tt then Some (30, 0, 0) else None.

(** The same, with one planet that never resolves. *)
Definition without_planet (missing : string) (name : string) (t : R)
  : option (R * R * R) :=
  if String.eqb name missing then None else Some (30, 0, 0).

(* ------------------------------------------------------------------ *)
(** ** Ephemerides that agree in the x-y plane *)

Definition same_xy (eph eph' : string -> Epoch -> option (R * R * R))
  : Prop :=
  forall name t,
    match eph name t, eph' name t with
    | Some (x, y, _), Some (x', y', _) => x = x' /\ y = y'
    | None, None => True
    | _, _ => False
    end.

(** [synthetic_eph] lifted out of the plane by one AU. *)
Definition synthetic_lifted (name : string) (t : Epoch)
  : option (R * R * R) :=
  match synthetic_eph name t with
  | Some (x, y, z) => Some (x, y, z + 1)
  | None => None
  end.

(* ------------------------------------------------------------------ *)
(** ** The calendar *)

Open Scope Z_scope.

Lemma month_cases (m : Z) :
  1 <= m <= 12 ->
  m = 1 \/ m = 2 \/ m = 3 \/ m = 4 \/ m = 5 \/ m = 6 \/
  m = 7 \/ m = 8 \/ m = 9 \/ m = 10 \/ m = 11 \/ m = 12.
Proof. lia. Qed.

Ltac month_split H :=
  let E := fresh "E" in
  destruct (month_cases _ H) as [E|[E|[E|[E|[E|[E|[E|[E|[E|[E|[E|E]]]]]]]]]]].

Ltac fold_consts :=
  repeat match goal with
         | |- context [Z.pos ?p + Z.pos ?q] =>
             let v := eval vm_compute in (Z.pos p + Z.pos q) in
             change (Z.pos p + Z.pos q) with v
         end.

Ltac calendar_simpl L :=
  unfold days_in_month, days_before_month, days_in_year;
  cbn [year month day]; rewrite ?L; fold_consts;
  cbn -[Z.add Z.le Z.lt]; rewrite ?L.

Ltac calendar_case y :=
  let L := fresh "L" in
  destruct (is_leap y) eqn:L; calendar_simpl L;
  match goal with
  | |- context [Z.ltb ?a ?b] => destruct (Z.ltb_spec a b)
  | _ => idtac
  end;
  calendar_simpl L; calendar_simpl L;
  intros; try reflexivity; try lia.

Lemma next_day_same_year (d : date) :
  valid_date d ->
  day_of_year d < days_in_year (year d) ->
  valid_date (next_day d) /\
  year (next_day d) = year d /\
  day_of_year (next_day d) = day_of_year d + 1.
Proof.
  destruct d as [y m dd]. unfold valid_date, day_of_year, next_day.
  cbn [year month day]. intros [Hm Hd].
  month_split Hm; subst m; revert Hd; calendar_case y.
Qed.

Lemma next_day_new_year (d : date) :
  valid_date d ->
  day_of_year d = days_in_year (year d) ->
  next_day d = mkDate (year d + 1) 1 1.
Proof.
  destruct d as [y m dd]. unfold valid_date, day_of_year, next_day.
  cbn [year month day]. intros [Hm Hd].
  month_split Hm; subst m; revert Hd; calendar_case y.
Qed.

Lemma days_in_year_bounds (y : Z) : 365 <= days_in_year y <= 366.
Proof. unfold days_in_year; destruct (is_leap y); lia. Qed.

(** While the offset stays below the length of the year, the sampled
    date is the day number [offset + 1] of that year. *)
Lemma sample_epoch_in_year (y : Z) (k : nat) :
  Z.of_nat k < days_in_year y ->
  valid_date (sample_epoch y k) /\
  year (sample_epoch y k) = y /\
  day_of_year (sample_epoch y k) = Z.of_nat k + 1.
Proof.
  induction k as [|k IH]; intros Hk.
  - unfold sample_epoch, valid_date, day_of_year, days_in_month, days_before_month;
    cbn. lia.
  - destruct IH as (Hv & Hy & Hd); [lia|].
    unfold sample_epoch in *. cbn [plus_days].
    destruct (next_day_same_year _ Hv) as (Hv' & Hy' & Hd').
    + rewrite Hy, Hd. lia.
    + repeat split; try apply Hv'; try lia.
Qed.

Lemma sample_epoch_S (y : Z) (k : nat) :
  sample_epoch y (S k) = next_day (sample_epoch y k).
Proof. reflexivity. Qed.

(** In a common year, offset 365 is the first of January of the next
    year. *)
Lemma sample_epoch_365_common_year (y : Z) :
  is_leap y = false ->
  sample_epoch y 365 = mkDate (y + 1) 1 1.
Proof.
  intros Hl.
  assert (Hdiy : days_in_year y = 365) by (unfold days_in_year; now rewrite Hl).
  destruct (sample_epoch_in_year y 364) as (Hv & Hy & Hd); [rewrite Hdiy; lia|].
  rewrite (sample_epoch_S y 364), (next_day_new_year _ Hv).
  - now rewrite Hy.
  - rewrite Hy, Hd, Hdiy. reflexivity.
Qed.

Lemma sample_epoch_year_cases (y : Z) (k : nat) :
  (k <= 365)%nat ->
  (valid_date (sample_epoch y k) /\ year (sample_epoch y k) = y) \/
  (is_leap y = false /\ k = 365%nat /\ sample_epoch y k = mkDate (y + 1) 1 1).
Proof.
  intros Hk. pose proof (days_in_year_bounds y) as Hb.
  destruct (Z.ltb_spec (Z.of_nat k) (days_in_year y)) as [Hlt|Hge].
  - left. destruct (sample_epoch_in_year y k Hlt) as (Hv & Hy & _). now split.
  - right. assert (k = 365%nat) by lia. subst k.
    assert (Hl : is_leap y = false).
    { unfold days_in_year in Hge. destruct (is_leap y); [lia|reflexivity]. }
    repeat split; trivial. now apply sample_epoch_365_common_year.
Qed.

Lemma sample_epoch_year_le (y : Z) (k : nat) :
  (k <= 365)%nat -> year (sample_epoch y k) <= y + 1.
Proof.
  intros Hk. destruct (sample_epoch_year_cases y k Hk) as [[_ E]|(_ & _ & E)];
    rewrite E; simpl; lia.
Qed.

(* ------------------------------------------------------------------ *)
(** ** The trace monad and the loops *)

Lemma bind_assoc {A B C} (m : M A) (f : A -> M B) (g : B -> M C) :
  bind (bind m f) g = bind m (fun x => bind (f x) g).
Proof.
  destruct m as [[a|e] w]; simpl; trivial.
  destruct (f a) as [[b|e] w']; simpl; trivial.
  destruct (g b) as [r w'']. now rewrite app_assoc.
Qed.

Lemma bind_ext {A B} (m : M A) (f g : A -> M B) :
  (forall x, f x = g x) -> bind m f = bind m g.
Proof.
  intros H. destruct m as [[a|e] w]; simpl; trivial. now rewrite H.
Qed.

Lemma bind_ret_l {A B} (a : A) (k : A -> M B) : bind (ret a) k = k a.
Proof. unfold bind, ret. now destruct (k a). Qed.

Lemma bind_ok_nil {A B} (a : A) (k : A -> M B) : bind (Ok a, []) k = k a.
Proof. exact (bind_ret_l a k). Qed.

Lemma bind_raised {A B} (e : exn) (w : list event) (k : A -> M B) :
  bind (Raised e, w) k = (Raised e, w).
Proof. reflexivity. Qed.

Lemma for_each_app {A S} (xs ys : list A) (body : A -> S -> M S) (s : S) :
  for_each (xs ++ ys) body s =
  bind (for_each xs body s) (fun s' => for_each ys body s').
Proof.
  revert s. induction xs as [|x xs IH]; intros s; cbn [for_each app].
  - now rewrite bind_ret_l.
  - rewrite bind_assoc. apply bind_ext. intros s'. apply IH.
Qed.

Lemma range_cons (lo hi : Z) :
  (lo < hi)%Z -> range lo hi = lo :: range (lo + 1) hi.
Proof.
  intros H. unfold range.
  replace (Z.to_nat (hi - lo)) with (S (Z.to_nat (hi - (lo + 1)))) by lia.
  cbn [seq map]. f_equal; [lia|].
  rewrite <- seq_shift, map_map. apply map_ext. intros i. lia.
Qed.

Lemma range_nil (lo hi : Z) : (hi <= lo)%Z -> range lo hi = [].
Proof.
  intros H. unfold range. now replace (Z.to_nat (hi - lo)) with 0%nat by lia.
Qed.

Lemma in_range (lo hi x : Z) : In x (range lo hi) <-> (lo <= x < hi)%Z.
Proof.
  unfold range. rewrite in_map_iff. split.
  - intros (i & <- & Hi). apply in_seq in Hi. lia.
  - intros H. exists (Z.to_nat (x - lo)). split; [lia|]. apply in_seq. lia.
Qed.

Lemma length_range (lo hi : Z) :
  List.length (range lo hi) = Z.to_nat (hi - lo).
Proof. unfold range. now rewrite length_map, length_seq. Qed.

(* ------------------------------------------------------------------ *)
(** ** The scan of one year *)

Open Scope R_scope.

Section Scan.

Variable eph : string -> Epoch -> option (R * R * R).

Lemma ts_utc_eta (d : date) : ts_utc (year d) (month d) (day d) = d.
Proof. now destruct d. Qed.

Lemma earth_mars_distance_spec (t : Epoch) :
  earth_mars_distance eph t =
  match dist_at eph t with
  | Some d => (Ok d, [])
  | None => (Raised DataUnavailable, [])
  end.
Proof.
  unfold earth_mars_distance, get_planet_xy, dist_at.
  destruct (eph "earth"%string t) as [[[xe ye] ze]|]; [|reflexivity].
  destruct (eph "mars"%string t) as [[[xm ym] zm]|]; reflexivity.
Qed.

Lemma add_days_sample (y : Z) (k : nat) :
  (y <= 9998)%Z -> (k <= 365)%nat ->
  add_days (mkDate y 1 1) k = Ok (sample_epoch y k).
Proof.
  intros Hy Hk. unfold add_days. fold (sample_epoch y k).
  pose proof (sample_epoch_year_le y k Hk) as Hle.
  destruct (Z.leb_spec (year (sample_epoch y k)) MAXYEAR) as [_|Hgt];
    [reflexivity|]. unfold MAXYEAR in Hgt. lia.
Qed.

Lemma scan_step_resolved (y : Z) (k : nat) (d : R)
      (best : option date * edist) :
  (y <= 9998)%Z -> (k <= 365)%nat ->
  dist_at eph (sample_epoch y k) = Some d ->
  scan_step eph (mkDate y 1 1) k best =
  (Ok (if lt_best d (snd best)
       then (Some (sample_epoch y k), Fin d) else best), []).
Proof.
  intros Hy Hk Hd. unfold scan_step.
  rewrite (add_days_sample y k Hy Hk). unfold lift. rewrite bind_ok_nil.
  rewrite ts_utc_eta, earth_mars_distance_spec, Hd, bind_ok_nil.
  now destruct (lt_best d (snd best)).
Qed.

Lemma scan_step_unresolved (y : Z) (k : nat) (best : option date * edist) :
  (y <= 9998)%Z -> (k <= 365)%nat ->
  dist_at eph (sample_epoch y k) = None ->
  scan_step eph (mkDate y 1 1) k best = (Raised DataUnavailable, []).
Proof.
  intros Hy Hk Hd. unfold scan_step.
  rewrite (add_days_sample y k Hy Hk). unfold lift. rewrite bind_ok_nil.
  now rewrite ts_utc_eta, earth_mars_distance_spec, Hd.
Qed.

(** One more sample keeps the invariant. *)
Lemma scan_inv_step (y : Z) (n : nat) (d : R) (best : option date * edist) :
  scan_inv eph y n best ->
  dist_at eph (sample_epoch y n) = Some d ->
  scan_inv eph y (S n)
    (if lt_best d (snd best) then (Some (sample_epoch y n), Fin d) else best).
Proof.
  intros [[-> ->]|(k & m & Hk & -> & Hm & Hmin & Hfirst)] Hd.
  - right. exists 0%nat, d. cbn [lt_best snd]. repeat split; trivial.
    + lia.
    + intros j dj Hj Hdj. assert (j = 0%nat) by lia. subst j.
      rewrite Hd in Hdj. injection Hdj as <-. lra.
    + intros j dj Hj. lia.
  - right. cbn [lt_best snd]. destruct (Rlt_dec d m) as [Hlt|Hnlt].
    + exists n, d. repeat split; trivial.
      * lia.
      * intros j dj Hj Hdj. destruct (Nat.eq_dec j n) as [->|Hne].
        -- rewrite Hd in Hdj. injection Hdj as <-. lra.
        -- assert (m <= dj) by (apply (Hmin j); trivial; lia). lra.
      * intros j dj Hj Hdj.
        assert (m <= dj) by (apply (Hmin j); trivial; lia). lra.
    + exists k, m. repeat split; trivial.
      * lia.
      * intros j dj Hj Hdj. destruct (Nat.eq_dec j n) as [->|Hne].
        -- rewrite Hd in Hdj. injection Hdj as <-. lra.
        -- apply (Hmin j); trivial; lia.
Qed.

(** With every sample resolved, the loop over the first [n] offsets
    ends normally, silently, in a state satisfying the invariant. *)
Lemma scan_prefix_resolved (y : Z) (n : nat) :
  (y <= 9998)%Z -> (n <= 366)%nat ->
  (forall k, (k < n)%nat -> resolvable eph (sample_epoch y k)) ->
  exists best,
    for_each (seq 0 n) (scan_step eph (mkDate y 1 1)) (None, Inf)
    = (Ok best, []) /\ scan_inv eph y n best.
Proof.
  intros Hy. induction n as [|n IH]; intros Hn Hres.
  - exists (None, Inf). split; [reflexivity|]. now left.
  - destruct IH as (best & Hrun & Hinv); [lia|intros k Hk; apply Hres; lia|].
    destruct (dist_at eph (sample_epoch y n)) as [d|] eqn:Hd.
    2:{ exfalso. apply (Hres n); [lia|exact Hd]. }
    eexists. rewrite seq_S, for_each_app, Hrun, bind_ok_nil.
    cbn [for_each Nat.add]. rewrite (scan_step_resolved y n d best), bind_ok_nil;
      trivial; [|lia].
    split; [reflexivity|]. now apply scan_inv_step.
Qed.

(** An unresolved sample aborts the loop with [DataUnavailable] before
    anything is printed. *)
Lemma scan_unresolved (y : Z) (ks : list nat) (best : option date * edist) :
  (y <= 9998)%Z ->
  (forall k, In k ks -> (k <= 365)%nat) ->
  (exists k, In k ks /\ dist_at eph (sample_epoch y k) = None) ->
  for_each ks (scan_step eph (mkDate y 1 1)) best
  = (Raised DataUnavailable, []).
Proof.
  intros Hy. revert best. induction ks as [|k0 ks IH]; intros best Hks Hex.
  - destruct Hex as (k & [] & _).
  - cbn [for_each].
    destruct (dist_at eph (sample_epoch y k0)) as [d|] eqn:Hd.
    + rewrite (scan_step_resolved y k0 d best), bind_ok_nil; trivial.
      * apply IH; [intros k Hk; apply Hks; now right|].
        destruct Hex as (k & [<-|Hin] & Hk); [congruence|now exists k].
      * apply Hks. now left.
    + rewrite scan_step_unresolved; trivial. apply Hks. now left.
Qed.

Lemma all_resolvable_dec (y : Z) (n : nat) :
  (forall k, (k < n)%nat -> resolvable eph (sample_epoch y k)) \/
  (exists k, (k < n)%nat /\ dist_at eph (sample_epoch y k) = None).
Proof.
  induction n as [|n [IH|(k & Hk & Hnone)]].
  - left. intros k Hk. lia.
  - destruct (dist_at eph (sample_epoch y n)) as [d|] eqn:Hd.
    + left. intros k Hk. destruct (Nat.eq_dec k n) as [->|Hne].
      * unfold resolvable. congruence.
      * apply IH. lia.
    + right. exists n. split; [lia|exact Hd].
  - right. exists k. split; [lia|exact Hnone].
Qed.

End Scan.

Lemma range_app (lo mid hi : Z) :
  (lo <= mid <= hi)%Z -> range lo hi = range lo mid ++ range mid hi.
Proof.
  intros H. remember (Z.to_nat (mid - lo)) as n eqn:Hn.
  revert lo H Hn. induction n as [|n IH]; intros lo H Hn.
  - assert (mid = lo) by lia. subst mid. now rewrite (range_nil lo lo) by lia.
  - rewrite (range_cons lo hi), (range_cons lo mid) by lia.
    cbn [app]. f_equal. apply IH; lia.
Qed.

Lemma range_split (lo hi y : Z) :
  (lo <= y < hi)%Z -> range lo hi = range lo y ++ y :: range (y + 1) hi.
Proof.
  intros H. rewrite (range_app lo y hi) by lia.
  now rewrite (range_cons y hi) by lia.
Qed.

(* ------------------------------------------------------------------ *)
(** ** The yearly loop *)

Section Years.

Variable eph : string -> Epoch -> option (R * R * R).

Lemma datetime_jan1_ok (y : Z) :
  (1 <= y <= 9998)%Z -> datetime_jan1 y = Ok (mkDate y 1 1).
Proof.
  intros Hy. unfold datetime_jan1, MINYEAR, MAXYEAR.
  destruct (Z.leb_spec 1 y); [|lia].
  destruct (Z.leb_spec y 9999); [reflexivity|lia].
Qed.

Lemma scan_year_resolved (y : Z) :
  (1 <= y <= 9998)%Z -> year_resolvable eph y ->
  exists rec,
    ar_year rec = y /\ is_first_minimum eph rec /\
    forall years dates dists,
      scan_year eph y (years, dates, dists) =
      (Ok (years ++ [y], dates ++ [ar_date rec], dists ++ [ar_dist rec]),
       [progress_of rec]).
Proof.
  intros Hy Hres.
  destruct (scan_prefix_resolved eph y 366) as (best & Hrun & Hinv);
    [lia|lia|intros k Hk; apply Hres; lia|].
  destruct Hinv as [[Hz _]|(k & m & Hk & -> & Hm & Hmin & Hfirst)];
    [discriminate|].
  exists (mkApproach y (sample_epoch y k) (Fin m)). split; [reflexivity|]. split.
  - exists k, m. cbn [ar_year ar_date ar_dist]. repeat split; trivial.
    + lia.
    + intros j dj Hj. apply Hmin. lia.
  - intros years dates dists. unfold scan_year.
    rewrite (datetime_jan1_ok y Hy). unfold lift. rewrite bind_ok_nil, Hrun.
    reflexivity.
Qed.

Lemma scan_year_unresolved (y : Z) acc :
  (1 <= y <= 9998)%Z ->
  (exists k, (k <= 365)%nat /\ dist_at eph (sample_epoch y k) = None) ->
  scan_year eph y acc = (Raised DataUnavailable, []).
Proof.
  intros Hy (k & Hk & Hnone). destruct acc as [[years dates] dists].
  unfold scan_year. rewrite (datetime_jan1_ok y Hy). unfold lift.
  rewrite bind_ok_nil, (scan_unresolved eph y); trivial; [lia| |].
  - intros j Hj. apply in_seq in Hj. lia.
  - exists k. split; [apply in_seq; lia|exact Hnone].
Qed.

Lemma year_resolvable_dec (y : Z) :
  year_resolvable eph y \/
  (exists k, (k <= 365)%nat /\ dist_at eph (sample_epoch y k) = None).
Proof.
  destruct (all_resolvable_dec eph y 366) as [H|(k & Hk & Hnone)].
  - left. intros k Hk. apply H. lia.
  - right. exists k. split; [lia|exact Hnone].
Qed.

(** Every year resolved: one record per year, each a first minimum,
    and one progress line per record. *)
Lemma scan_years_resolved (ys : list Z) :
  (forall y, In y ys -> (1 <= y <= 9998)%Z /\ year_resolvable eph y) ->
  exists recs,
    map ar_year recs = ys /\ Forall (is_first_minimum eph) recs /\
    forall years dates dists,
      for_each ys (scan_year eph) (years, dates, dists) =
      (Ok (years ++ ys, dates ++ map ar_date recs, dists ++ map ar_dist recs),
       map progress_of recs).
Proof.
  induction ys as [|y ys IH]; intros Hys.
  - exists []. repeat split; [constructor|]. intros. cbn [for_each map].
    now rewrite !app_nil_r.
  - destruct (Hys y (or_introl eq_refl)) as [Hy Hres].
    destruct (scan_year_resolved y Hy Hres) as (rec & Hry & Hmin & Hrun).
    destruct IH as (recs & Hmap & Hall & Hloop);
      [intros y' Hy'; apply Hys; now right|].
    exists (rec :: recs). split; [cbn [map]; now rewrite Hry, Hmap|].
    split; [now constructor|].
    intros years dates dists. cbn [for_each]. rewrite Hrun.
    unfold bind at 1. rewrite Hloop. cbn [map app].
    now rewrite <- !app_assoc.
Qed.

(** A year with an unresolved sample aborts the loop; only earlier
    years have been reported. *)
Lemma scan_years_unresolved (l1 : list Z) (y : Z) (l2 : list Z) acc :
  (forall y', In y' (l1 ++ [y]) -> (1 <= y' <= 9998)%Z) ->
  (exists k, (k <= 365)%nat /\ dist_at eph (sample_epoch y k) = None) ->
  exists tr,
    for_each (l1 ++ y :: l2) (scan_year eph) acc
    = (Raised DataUnavailable, tr) /\
    Forall (fun ev => exists y', progress_year ev = Some y' /\ In y' l1) tr.
Proof.
  revert acc. induction l1 as [|y0 l1 IH]; intros acc Hrange Hfail.
  - exists []. cbn [app for_each].
    rewrite scan_year_unresolved; trivial; [now split|].
    apply Hrange. now left.
  - assert (Hy0 : (1 <= y0 <= 9998)%Z) by (apply Hrange; now left).
    cbn [app for_each].
    destruct (year_resolvable_dec y0) as [Hres|Hnone].
    + destruct (scan_year_resolved y0 Hy0 Hres) as (rec & Hry & _ & Hrun).
      destruct acc as [[years dates] dists]. rewrite Hrun.
      destruct (IH (years ++ [y0], dates ++ [ar_date rec],
                    dists ++ [ar_dist rec])) as (tr & Htr & Hall); trivial.
      { intros y' Hy'. apply Hrange. now right. }
      exists (progress_of rec :: tr). unfold bind at 1. rewrite Htr.
      split; [reflexivity|]. constructor.
      * exists y0. split; [now rewrite <- Hry|now left].
      * eapply Forall_impl; [|exact Hall].
        intros ev (y' & Hev & Hin). exists y'. split; trivial. now right.
    + exists []. rewrite scan_year_unresolved; trivial. now split.
Qed.

End Years.

(* ------------------------------------------------------------------ *)
(** ** Transfer times and charts *)

Lemma hypot_nonneg (x y : R) : 0 <= hypot x y.
Proof. apply sqrt_pos. Qed.

Lemma GM_SUN_pos : 0 < GM_SUN.
Proof. unfold GM_SUN. lra. Qed.

Lemma transfer_time_nonneg (r_e r_m : R) :
  0 <= r_e + r_m ->
  transfer_time r_e r_m = Ok (PI * sqrt (((r_e + r_m) / 2) ^ 3 / GM_SUN)).
Proof.
  intros H. unfold transfer_time, math_sqrt.
  destruct (Rlt_dec (((r_e + r_m) / 2) ^ 3 / GM_SUN) 0) as [Hneg|_];
    [|reflexivity].
  exfalso. pose proof GM_SUN_pos as Hg.
  assert (0 <= ((r_e + r_m) / 2) ^ 3) by (apply pow_le; lra).
  assert (0 <= ((r_e + r_m) / 2) ^ 3 / GM_SUN).
  { apply Rmult_le_pos; [assumption|]. left. now apply Rinv_0_lt_compat. }
  lra.
Qed.

Lemma transfer_time_negative (r_e r_m : R) :
  r_e + r_m < 0 -> transfer_time r_e r_m = Raised ValueError.
Proof.
  intros H. unfold transfer_time, math_sqrt.
  destruct (Rlt_dec (((r_e + r_m) / 2) ^ 3 / GM_SUN) 0) as [_|Hnn];
    [reflexivity|].
  exfalso. apply Hnn. pose proof GM_SUN_pos as Hg.
  set (a := (r_e + r_m) / 2). assert (Ha : a < 0) by (unfold a; lra).
  assert (Ha3 : a ^ 3 < 0).
  { replace (a ^ 3) with (- ((- a) ^ 3)) by ring.
    assert (0 < (- a) ^ 3) by (apply pow_lt; lra). lra. }
  replace (a ^ 3 / GM_SUN) with (- ((- a ^ 3) * / GM_SUN)) by (field; lra).
  assert (0 < (- a ^ 3) * / GM_SUN).
  { apply Rmult_lt_0_compat; [lra|now apply Rinv_0_lt_compat]. }
  lra.
Qed.

Lemma for_each_emit {A} (f : A -> event) (body : A -> unit -> M unit)
      (xs : list A) :
  (forall x s, body x s = emit (f x)) ->
  for_each xs body tt = (Ok tt, map f xs).
Proof.
  intros Hbody. induction xs as [|x xs IH]; [reflexivity|].
  cbn [for_each map]. rewrite Hbody. unfold emit, bind. now rewrite IH.
Qed.

Section Charts.

Variable eph : string -> Epoch -> option (R * R * R).

Lemma plot_distance_chart_events years dates dists dist_chart :
  plot_distance_chart years dates dists dist_chart =
  (Ok tt, distance_chart_events years dates dists dist_chart).
Proof.
  unfold plot_distance_chart, distance_chart_events.
  rewrite (for_each_emit (fun '(x, y, dt) => EvText x y (strftime_b_d dt))).
  - reflexivity.
  - now intros [[x y] dt] [].
Qed.

Lemma plot_time_chart_events years transfer_days time_chart :
  plot_time_chart years transfer_days time_chart =
  (Ok tt, time_chart_events years transfer_days time_chart).
Proof.
  unfold plot_time_chart, time_chart_events.
  rewrite (for_each_emit (fun '(x, td) => EvTextDays x td (time_label td))).
  - reflexivity.
  - now intros [x td] [].
Qed.

Lemma transfer_step_resolved (d : date) (T : R) (acc : list R) :
  raw_transfer_days eph d = Some T ->
  transfer_step eph d acc = (Ok (acc ++ [T]), []).
Proof.
  unfold raw_transfer_days, transfer_step, get_planet_xy.
  rewrite ts_utc_eta.
  destruct (eph "earth"%string d) as [[[xe ye] ze]|]; [|discriminate].
  destruct (eph "mars"%string d) as [[[xm ym] zm]|]; [|discriminate].
  intros [= <-]. unfold ret. rewrite !bind_ok_nil.
  rewrite transfer_time_nonneg.
  - reflexivity.
  - pose proof (hypot_nonneg xe ye). pose proof (hypot_nonneg xm ym). lra.
Qed.

Lemma resolvable_raw_transfer (d : date) :
  resolvable eph d -> exists T, raw_transfer_days eph d = Some T.
Proof.
  unfold resolvable, dist_at, raw_transfer_days.
  destruct (eph "earth"%string d) as [[[xe ye] ze]|]; [|congruence].
  destruct (eph "mars"%string d) as [[[xm ym] zm]|]; [|congruence].
  intros _. eexists. reflexivity.
Qed.

Lemma transfer_loop_resolved (ds : list date) (acc : list R) :
  Forall (resolvable eph) ds ->
  exists ts,
    Forall2 (fun d T => raw_transfer_days eph d = Some T) ds ts /\
    for_each ds (transfer_step eph) acc = (Ok (acc ++ ts), []).
Proof.
  intros Hall. revert acc. induction Hall as [|d ds Hd _ IH]; intros acc.
  - exists []. split; [constructor|]. cbn [for_each]. now rewrite app_nil_r.
  - destruct (resolvable_raw_transfer d Hd) as (T & HT).
    destruct (IH (acc ++ [T])) as (ts & Hts & Hrun).
    exists (T :: ts). split; [now constructor|].
    cbn [for_each]. rewrite (transfer_step_resolved d T acc HT), bind_ok_nil.
    rewrite Hrun. now rewrite <- app_assoc.
Qed.

End Charts.

Lemma zip3_records (recs : list ApproachRecord) :
  map (fun '(y, d, r) => mkApproach y d r)
      (zip3 (map ar_year recs) (map ar_date recs) (map ar_dist recs)) = recs.
Proof.
  induction recs as [|[y d r] recs IH]; [reflexivity|].
  cbn [map zip3 ar_year ar_date ar_dist]. now rewrite IH.
Qed.

(* ------------------------------------------------------------------ *)
(** ** compute_launch_windows on a resolvable range *)

Section Windows.

Variable eph : string -> Epoch -> option (R * R * R).

Lemma first_minimum_resolvable (rec : ApproachRecord) :
  is_first_minimum eph rec -> resolvable eph (ar_date rec).
Proof.
  intros (k & m & _ & -> & _ & Hm & _). unfold resolvable. congruence.
Qed.

(** When the years lie in 1..9998 and every sampled epoch resolves,
    the function ends normally.  Its lists hold one record per year of
    the range, each the first daily minimum of its year; the transfer
    times are the Hohmann times of the raw radii at the record dates;
    the trace is one progress line per record followed by the two
    charts. *)
Lemma compute_launch_windows_resolved
      (start_year end_year : Z) (dist_chart time_chart : string) :
  (1 <= start_year)%Z -> (end_year <= 9998)%Z ->
  (forall y, (start_year <= y <= end_year)%Z -> year_resolvable eph y) ->
  exists w,
    compute_launch_windows eph start_year end_year dist_chart time_chart =
    (Ok w,
     map progress_of (approach_records w) ++
     distance_chart_events (w_years w) (w_dates w) (w_dists w) dist_chart ++
     time_chart_events (w_years w) (w_transfer_days w) time_chart) /\
    w_years w = range start_year (end_year + 1) /\
    map ar_year (approach_records w) = w_years w /\
    map ar_date (approach_records w) = w_dates w /\
    map ar_dist (approach_records w) = w_dists w /\
    Forall (is_first_minimum eph) (approach_records w) /\
    Forall2 (fun d T => raw_transfer_days eph d = Some T)
            (w_dates w) (w_transfer_days w).
Proof.
  intros Hs He Hres.
  destruct (scan_years_resolved eph (range start_year (end_year + 1)))
    as (recs & Hyears & Hmin & Hscan).
  { intros y Hy. apply in_range in Hy. split; [lia|]. apply Hres. lia. }
  destruct (transfer_loop_resolved eph (map ar_date recs) []) as (ts & Hts & Hloop).
  { rewrite Forall_map. eapply Forall_impl; [|exact Hmin].
    apply first_minimum_resolvable. }
  set (w := mkWindows (range start_year (end_year + 1)) (map ar_date recs)
                      (map ar_dist recs) ts).
  assert (Hrecs : approach_records w = recs).
  { unfold approach_records, w. cbn [w_years w_dates w_dists].
    rewrite <- Hyears. apply zip3_records. }
  exists w. rewrite Hrecs. cbn [w w_years w_dates w_dists w_transfer_days].
  repeat split; trivial.
  unfold compute_launch_windows. rewrite Hscan. cbn [app].
  unfold bind at 1. rewrite plot_distance_chart_events.
  unfold bind at 1. rewrite Hloop. cbn [app].
  unfold bind at 1. rewrite plot_time_chart_events.
  unfold bind, ret. cbn [app]. now rewrite !app_nil_r.
Qed.

End Windows.

(* ------------------------------------------------------------------ *)
(** ** The synthetic ephemerides *)

Lemma Some_inj {A} (a b : A) : Some a = Some b -> a = b.
Proof. now intros [= ->]. Qed.

Lemma hypot_x_0 (x : R) : 0 <= x -> hypot (x - 0) (0 - 0) = x.
Proof.
  intros Hx. unfold hypot.
  replace ((x - 0) * (x - 0) + (0 - 0) * (0 - 0)) with (x * x) by ring.
  now apply sqrt_square.
Qed.

Lemma synthetic_earth (t : Epoch) :
  synthetic_eph "earth" t = Some (0, 0, 0).
Proof. reflexivity. Qed.

Lemma synthetic_mars (t : Epoch) :
  synthetic_eph "mars" t = Some (IZR (4000000 - day_index t), 0, 0).
Proof. reflexivity. Qed.

Lemma synthetic_dist_at (t : Epoch) :
  (day_index t <= 4000000)%Z ->
  dist_at synthetic_eph t = Some (IZR (4000000 - day_index t)).
Proof.
  intros H. unfold dist_at. rewrite synthetic_earth, synthetic_mars.
  rewrite hypot_x_0; [reflexivity|]. apply IZR_le. lia.
Qed.

Lemma synthetic_resolvable (t : Epoch) : resolvable synthetic_eph t.
Proof.
  unfold resolvable, dist_at. rewrite synthetic_earth, synthetic_mars.
  intros H. inversion H.
Qed.

Lemma synthetic_year_resolvable (y : Z) : year_resolvable synthetic_eph y.
Proof. intros k _. apply synthetic_resolvable. Qed.

Lemma day_index_2026 (k : nat) :
  (k <= 365)%nat ->
  (day_index (sample_epoch 2026 k) <= 4000000)%Z /\
  ((k < 365)%nat ->
   (day_index (sample_epoch 2026 k) < day_index (sample_epoch 2026 365))%Z).
Proof.
  intros Hk.
  assert (Hall : forallb (fun j =>
            (day_index (sample_epoch 2026 j) <=? 4000000)%Z &&
            ((j =? 365)%nat ||
             (day_index (sample_epoch 2026 j) <?
              day_index (sample_epoch 2026 365))%Z)) (seq 0 366) = true)
    by (vm_compute; reflexivity).
  rewrite forallb_forall in Hall.
  specialize (Hall k). rewrite in_seq in Hall.
  destruct (andb_prop _ _ (Hall ltac:(lia))) as [H1 H2].
  split; [now apply Z.leb_le|]. intros Hlt.
  apply orb_prop in H2. destruct H2 as [H2|H2].
  - apply Nat.eqb_eq in H2. lia.
  - now apply Z.ltb_lt.
Qed.

(* ------------------------------------------------------------------ *)
(** ** The closest-approach scanner *)

(** C2: for years that [datetime] supports and an ephemeris that
    resolves every sampled epoch, the scanner ends normally with one
    record per year of the range, and each record is the minimum of the
    Earth-Mars distance over the daily samples at offsets 0..365 from
    1 January of its year; among equal minima the earliest offset is the
    one kept. *)
Theorem scanner_keeps_first_daily_minimum
        (eph : string -> Epoch -> option (R * R * R))
        (start_year end_year : Z) (dist_chart time_chart : string) :
  (1 <= start_year)%Z -> (end_year <= 9998)%Z ->
  (forall y, (start_year <= y <= end_year)%Z -> year_resolvable eph y) ->
  exists w tr,
    compute_launch_windows eph start_year end_year dist_chart time_chart
    = (Ok w, tr) /\
    map ar_year (approach_records w) = range start_year (end_year + 1) /\
    forall rec, In rec (approach_records w) ->
      exists (k : nat) (m : R),
        (k <= 365)%nat /\
        ar_date rec = sample_epoch (ar_year rec) k /\
        ar_dist rec = Fin m /\
        dist_at eph (sample_epoch (ar_year rec) k) = Some m /\
        (forall j dj, (j <= 365)%nat ->
            dist_at eph (sample_epoch (ar_year rec) j) = Some dj -> m <= dj) /\
        (forall j dj, (j < k)%nat ->
            dist_at eph (sample_epoch (ar_year rec) j) = Some dj -> m < dj).
Proof.
  intros Hs He Hres.
  destruct (compute_launch_windows_resolved eph start_year end_year
              dist_chart time_chart Hs He Hres)
    as (w & Hrun & Hy & Hry & _ & _ & Hmin & _).
  exists w. eexists. split; [exact Hrun|]. split; [congruence|].
  intros rec Hin. rewrite Forall_forall in Hmin. exact (Hmin rec Hin).
Qed.

Lemma scanner_keeps_first_daily_minimum_witness :
  exists w tr,
    compute_launch_windows synthetic_eph 2026 2026
      "launch_windows.png" "travel_times.png" = (Ok w, tr) /\
    map ar_year (approach_records w) = range 2026 (2026 + 1) /\
    forall rec, In rec (approach_records w) ->
      exists (k : nat) (m : R),
        (k <= 365)%nat /\
        ar_date rec = sample_epoch (ar_year rec) k /\
        ar_dist rec = Fin m /\
        dist_at synthetic_eph (sample_epoch (ar_year rec) k) = Some m /\
        (forall j dj, (j <= 365)%nat ->
            dist_at synthetic_eph (sample_epoch (ar_year rec) j) = Some dj ->
            m <= dj) /\
        (forall j dj, (j < k)%nat ->
            dist_at synthetic_eph (sample_epoch (ar_year rec) j) = Some dj ->
            m < dj).
Proof.
  apply (scanner_keeps_first_daily_minimum synthetic_eph 2026 2026).
  - lia.
  - lia.
  - intros y _. apply synthetic_year_resolvable.
Defined.

Lemma valid_date_in_year (d : date) :
  valid_date d -> in_year (year d) d.
Proof.
  destruct d as [y m dd]. unfold valid_date, in_year, date_le.
  cbn [year month day]. intros [Hm Hd].
  assert (Hdim : (days_in_month y m <= 31)%Z).
  { unfold days_in_month.
    destruct (m =? 2)%Z; [destruct (is_leap y); lia|].
    destruct ((m =? 4) || (m =? 6) || (m =? 9) || (m =? 11))%Z; lia. }
  lia.
Qed.

Lemma dist_at_nonneg (eph : string -> Epoch -> option (R * R * R))
      (t : Epoch) (m : R) :
  dist_at eph t = Some m -> 0 <= m.
Proof.
  unfold dist_at.
  destruct (eph "earth"%string t) as [[[x_e y_e] z_e]|]; [|discriminate].
  destruct (eph "mars"%string t) as [[[x_m y_m] z_m]|]; [|discriminate].
  intros H. apply Some_inj in H. subst m. apply hypot_nonneg.
Qed.

(** What holds of every record: its distance is a non-negative real,
    and its date lies in its year or, in a common year only, is the
    first of January of the next year. *)
Lemma first_minimum_record_bounds
      (eph : string -> Epoch -> option (R * R * R)) (rec : ApproachRecord) :
  is_first_minimum eph rec ->
  (exists m, ar_dist rec = Fin m /\ 0 <= m) /\
  (in_year (ar_year rec) (ar_date rec) \/
   (is_leap (ar_year rec) = false /\
    ar_date rec = mkDate (ar_year rec + 1) 1 1)).
Proof.
  intros (k & m & Hk & Hdate & Hdist & Hm & _). split.
  - exists m. split; [assumption|]. now apply (dist_at_nonneg eph _ m Hm).
  - destruct (sample_epoch_year_cases (ar_year rec) k Hk)
      as [[Hv Hy]|(Hl & _ & Hnext)].
    + left. rewrite Hdate. rewrite <- Hy at 1. now apply valid_date_in_year.
    + right. split; [assumption|]. now rewrite Hdate.
Qed.

(** C1, at a common year: with a distance that falls through the whole
    of 2026 the record reported for 2026 carries the date 2027-01-01,
    which is outside 2026. *)
Theorem scan_2026_reports_2027_01_01 :
  exists w tr,
    compute_launch_windows synthetic_eph 2026 2026
      "launch_windows.png" "travel_times.png" = (Ok w, tr) /\
    approach_records w = [mkApproach 2026 (mkDate 2027 1 1) (Fin 3245924)] /\
    ~ in_year 2026 (mkDate 2027 1 1).
Proof.
  destruct (compute_launch_windows_resolved synthetic_eph 2026 2026
              "launch_windows.png" "travel_times.png")
    as (w & Hrun & Hy & Hry & _ & _ & Hmin & _);
    [lia|lia|intros y _; apply synthetic_year_resolvable|].
  exists w. eexists. split; [exact Hrun|]. split.
  - rewrite Hy in Hry. rewrite (range_cons 2026), range_nil in Hry by lia.
    destruct (approach_records w) as [|rec [|rec' recs]]; try discriminate Hry.
    injection Hry as Hyear.
    apply Forall_inv in Hmin.
    destruct rec as [y d r]. cbn [ar_year] in Hyear. subst y.
    destruct Hmin as (k & m & Hk & Hdate & Hdist & Hm & Hle & _).
    cbn [ar_year ar_date ar_dist] in *.
    pose proof (sample_epoch_365_common_year 2026 eq_refl) as Hlast.
    assert (Hk365 : k = 365%nat).
    { destruct (Nat.eq_dec k 365) as [|Hne]; [assumption|exfalso].
      destruct (day_index_2026 k Hk) as [Hb Hlt].
      destruct (day_index_2026 365 (le_n _)) as [Hb' _].
      pose proof (synthetic_dist_at _ Hb') as H365.
      apply Hle in H365; [|apply le_n].
      rewrite (synthetic_dist_at _ Hb) in Hm. apply Some_inj in Hm.
      rewrite <- Hm in H365. apply le_IZR in H365.
      assert (Hk' : (k < 365)%nat) by (clear - Hk Hne; lia).
      apply Hlt in Hk'. clear - H365 Hk'.
      revert H365 Hk'.
      generalize (day_index (sample_epoch 2026 k)).
      generalize (day_index (sample_epoch 2026 365)).
      intros a b. lia. }
    subst k. rewrite Hlast in Hdate, Hm. subst d r.
    rewrite synthetic_dist_at in Hm by (unfold day_index; cbn [year month day]; lia).
    apply Some_inj in Hm. now rewrite <- Hm.
  - unfold in_year, date_le. cbn [year month day]. lia.
Qed.

(* ------------------------------------------------------------------ *)
(** ** Unresolved epochs *)

Lemma unresolvable_none (eph : string -> Epoch -> option (R * R * R))
      (t : Epoch) :
  ~ resolvable eph t -> dist_at eph t = None.
Proof.
  unfold resolvable. destruct (dist_at eph t); [|reflexivity].
  intros H. exfalso. apply H. discriminate.
Qed.

(** C5: when one of the sampled epochs of the requested range cannot be
    resolved (in a year [y] that [datetime] supports), the whole call
    ends with [DataUnavailable]; the trace holds no chart event at all,
    and progress lines only for years before [y]. *)
Theorem unresolved_epoch_aborts_the_run
        (eph : string -> Epoch -> option (R * R * R))
        (start_year end_year : Z) (dist_chart time_chart : string)
        (y : Z) (k : nat) :
  (1 <= start_year)%Z -> (y <= 9998)%Z ->
  (start_year <= y <= end_year)%Z -> (k <= 365)%nat ->
  ~ resolvable eph (sample_epoch y k) ->
  exists tr,
    compute_launch_windows eph start_year end_year dist_chart time_chart
    = (Raised DataUnavailable, tr) /\
    Forall (fun ev => is_chart_event ev = false) tr /\
    forall y' d r, In (EvProgress y' d r) tr -> (y' < y)%Z.
Proof.
  intros Hs He Hy Hk Hun. apply unresolvable_none in Hun.
  destruct (scan_years_unresolved eph (range start_year y) y
              (range (y + 1) (end_year + 1)) ([], [], []))
    as (tr & Hrun & Hall).
  { intros y' Hy'. apply in_app_iff in Hy'. destruct Hy' as [Hy'|[<-|[]]].
    - apply in_range in Hy'. lia.
    - lia. }
  { now exists k. }
  exists tr. split; [|split].
  - unfold compute_launch_windows.
    rewrite (range_split start_year (end_year + 1) y) by lia.
    now rewrite Hrun.
  - eapply Forall_impl; [|exact Hall].
    intros ev (y' & Hev & _). destruct ev; try discriminate Hev. reflexivity.
  - intros y' d r Hin. rewrite Forall_forall in Hall.
    destruct (Hall _ Hin) as (y'' & Hev & Hin'). cbn in Hev.
    injection Hev as <-. apply in_range in Hin'. lia.
Qed.

Lemma unresolved_epoch_aborts_the_run_witness :
  exists tr,
    compute_launch_windows (covered_until 2026) 2026 2027
      "launch_windows.png" "travel_times.png"
    = (Raised DataUnavailable, tr) /\
    Forall (fun ev => is_chart_event ev = false) tr /\
    forall y' d r, In (EvProgress y' d r) tr -> (y' < 2027)%Z.
Proof.
  apply (unresolved_epoch_aborts_the_run (covered_until 2026) 2026 2027
           "launch_windows.png" "travel_times.png" 2027 0).
  - lia.
  - lia.
  - lia.
  - lia.
  - intros H. apply H. reflexivity.
Defined.

(* ------------------------------------------------------------------ *)
(** ** Raw positions in the physical calculations *)

(** C9: the Earth-Mars distance at an epoch is the Euclidean distance
    of the raw ephemeris positions, every record holds that distance at
    its date, and every transfer time is computed from the heliocentric
    radii [hypot] of the raw positions at the record's date;
    [radial_exaggerate] occurs in none of them. *)
Theorem physics_uses_raw_positions
        (eph : string -> Epoch -> option (R * R * R))
        (start_year end_year : Z) (dist_chart time_chart : string) :
  (1 <= start_year)%Z -> (end_year <= 9998)%Z ->
  (forall y, (start_year <= y <= end_year)%Z -> year_resolvable eph y) ->
  (forall t x_e y_e z_e x_m y_m z_m,
      eph "earth"%string t = Some (x_e, y_e, z_e) ->
      eph "mars"%string t = Some (x_m, y_m, z_m) ->
      earth_mars_distance eph t = (Ok (hypot (x_m - x_e) (y_m - y_e)), [])) /\
  exists w tr,
    compute_launch_windows eph start_year end_year dist_chart time_chart
    = (Ok w, tr) /\
    Forall (fun rec =>
              exists x_e y_e z_e x_m y_m z_m,
                eph "earth"%string (ar_date rec) = Some (x_e, y_e, z_e) /\
                eph "mars"%string (ar_date rec) = Some (x_m, y_m, z_m) /\
                ar_dist rec = Fin (hypot (x_m - x_e) (y_m - y_e)))
           (approach_records w) /\
    Forall2 (fun d T =>
               exists x_e y_e z_e x_m y_m z_m,
                 eph "earth"%string d = Some (x_e, y_e, z_e) /\
                 eph "mars"%string d = Some (x_m, y_m, z_m) /\
                 T = PI * sqrt (((hypot x_e y_e + hypot x_m y_m) / 2) ^ 3
                                / 0.0002959122082855911))
            (w_dates w) (w_transfer_days w).
Proof.
  intros Hs He Hres. split.
  - intros t x_e y_e z_e x_m y_m z_m Hearth Hmars.
    rewrite earth_mars_distance_spec. unfold dist_at.
    now rewrite Hearth, Hmars.
  - destruct (compute_launch_windows_resolved eph start_year end_year
                dist_chart time_chart Hs He Hres)
      as (w & Hrun & _ & _ & _ & _ & Hmin & Htr).
    exists w. eexists. split; [exact Hrun|]. split.
    + eapply Forall_impl; [|exact Hmin].
      intros rec (k & m & _ & Hdate & Hdist & Hm & _).
      rewrite <- Hdate in Hm. unfold dist_at in Hm.
      destruct (eph "earth"%string (ar_date rec)) as [[[x_e y_e] z_e]|];
        [|discriminate].
      destruct (eph "mars"%string (ar_date rec)) as [[[x_m y_m] z_m]|];
        [|discriminate].
      exists x_e, y_e, z_e, x_m, y_m, z_m. apply Some_inj in Hm.
      now rewrite Hdist, Hm.
    + eapply Forall2_impl; [|exact Htr].
      intros d T HT. unfold raw_transfer_days in HT.
      destruct (eph "earth"%string d) as [[[x_e y_e] z_e]|]; [|discriminate].
      destruct (eph "mars"%string d) as [[[x_m y_m] z_m]|]; [|discriminate].
      exists x_e, y_e, z_e, x_m, y_m, z_m. apply Some_inj in HT.
      now rewrite <- HT.
Qed.

Lemma physics_uses_raw_positions_witness :
  (forall t x_e y_e z_e x_m y_m z_m,
      synthetic_eph "earth"%string t = Some (x_e, y_e, z_e) ->
      synthetic_eph "mars"%string t = Some (x_m, y_m, z_m) ->
      earth_mars_distance synthetic_eph t
      = (Ok (hypot (x_m - x_e) (y_m - y_e)), [])) /\
  exists w tr,
    compute_launch_windows synthetic_eph 2026 2026
      "launch_windows.png" "travel_times.png" = (Ok w, tr) /\
    Forall (fun rec =>
              exists x_e y_e z_e x_m y_m z_m,
                synthetic_eph "earth"%string (ar_date rec)
                = Some (x_e, y_e, z_e) /\
                synthetic_eph "mars"%string (ar_date rec)
                = Some (x_m, y_m, z_m) /\
                ar_dist rec = Fin (hypot (x_m - x_e) (y_m - y_e)))
           (approach_records w) /\
    Forall2 (fun d T =>
               exists x_e y_e z_e x_m y_m z_m,
                 synthetic_eph "earth"%string d = Some (x_e, y_e, z_e) /\
                 synthetic_eph "mars"%string d = Some (x_m, y_m, z_m) /\
                 T = PI * sqrt (((hypot x_e y_e + hypot x_m y_m) / 2) ^ 3
                                / 0.0002959122082855911))
            (w_dates w) (w_transfer_days w).
Proof.
  apply (physics_uses_raw_positions synthetic_eph 2026 2026).
  - lia.
  - lia.
  - intros y _. apply synthetic_year_resolvable.
Defined.

(* ------------------------------------------------------------------ *)
(** ** Inputs the code does not validate *)

Lemma transfer_time_zero : transfer_time 0 0 = Ok 0.
Proof.
  rewrite transfer_time_nonneg by lra.
  replace (((0 + 0) / 2) ^ 3 / GM_SUN) with 0 by (unfold Rdiv; ring).
  now rewrite sqrt_0, Rmult_0_r.
Qed.

Lemma empty_range_run (eph : string -> Epoch -> option (R * R * R))
      (start_year end_year : Z) (dist_chart time_chart : string) :
  (end_year < start_year)%Z ->
  compute_launch_windows eph start_year end_year dist_chart time_chart =
  (Ok (mkWindows [] [] [] []),
   [EvPlot [] []; EvSavefig dist_chart; EvSaved dist_chart;
    EvPlotDays [] []; EvSavefig time_chart; EvSaved time_chart]).
Proof.
  intros H. unfold compute_launch_windows. rewrite range_nil by lia.
  reflexivity.
Qed.

(** C4, as stated, fails: an empty year range ends normally, with both
    charts written, and zero radii give a duration of 0 days. *)
Lemma no_invalid_input_error :
  compute_launch_windows synthetic_eph 2026 2025
    "launch_windows.png" "travel_times.png" =
  (Ok (mkWindows [] [] [] []),
   [EvPlot [] []; EvSavefig "launch_windows.png"; EvSaved "launch_windows.png";
    EvPlotDays [] []; EvSavefig "travel_times.png";
    EvSaved "travel_times.png"]) /\
  transfer_time 0 0 = Ok 0.
Proof.
  split; [apply empty_range_run; lia|apply transfer_time_zero].
Qed.

(** C4, amended: neither component validates its input.  On an empty
    year range the scanner ends normally with no record and both (empty)
    charts are still written; the estimator returns pi * sqrt(a^3 / mu)
    whenever the radii sum to a non-negative number (zero radii included),
    and the radii the program passes to it are [hypot] values, never
    negative. *)
Theorem inputs_are_not_validated
        (eph : string -> Epoch -> option (R * R * R))
        (start_year end_year : Z) (dist_chart time_chart : string)
        (r_e r_m x y : R) :
  (end_year < start_year)%Z -> 0 <= r_e + r_m ->
  compute_launch_windows eph start_year end_year dist_chart time_chart =
  (Ok (mkWindows [] [] [] []),
   [EvPlot [] []; EvSavefig dist_chart; EvSaved dist_chart;
    EvPlotDays [] []; EvSavefig time_chart; EvSaved time_chart]) /\
  transfer_time r_e r_m
  = Ok (PI * sqrt (((r_e + r_m) / 2) ^ 3 / GM_SUN)) /\
  transfer_time 0 0 = Ok 0 /\
  0 <= hypot x y.
Proof.
  intros Hrange Hsum. split; [now apply empty_range_run|].
  split; [now apply transfer_time_nonneg|].
  split; [apply transfer_time_zero|apply hypot_nonneg].
Qed.

Lemma inputs_are_not_validated_witness :
  compute_launch_windows synthetic_eph 2045 2025
    "launch_windows.png" "travel_times.png" =
  (Ok (mkWindows [] [] [] []),
   [EvPlot [] []; EvSavefig "launch_windows.png"; EvSaved "launch_windows.png";
    EvPlotDays [] []; EvSavefig "travel_times.png";
    EvSaved "travel_times.png"]) /\
  transfer_time 0 1 = Ok (PI * sqrt (((0 + 1) / 2) ^ 3 / GM_SUN)) /\
  transfer_time 0 0 = Ok 0 /\
  0 <= hypot 3 4.
Proof.
  apply (inputs_are_not_validated synthetic_eph 2045 2025
           "launch_windows.png" "travel_times.png" 0 1 3 4).
  - lia.
  - lra.
Defined.

(* ------------------------------------------------------------------ *)
(** ** The Hohmann transfer time *)

Lemma PI_bounds : 3.135 < PI < 3.1421.
Proof.
  destruct (PI_2_3_7_ineq 0) as [Hlo _].
  destruct (PI_2_3_7_ineq 1) as [_ Hhi].
  unfold sum_f_R0, tg_alt, PI_2_3_7_tg, Ratan_seq in Hlo, Hhi.
  simpl in Hlo, Hhi. lra.
Qed.

Lemma sqrt_between (lo hi v : R) :
  0 <= lo -> 0 <= hi -> lo * lo <= v <= hi * hi -> lo <= sqrt v <= hi.
Proof.
  intros Hlo Hhi [H1 H2]. split.
  - rewrite <- (sqrt_square lo Hlo). now apply sqrt_le_1_alt.
  - rewrite <- (sqrt_square hi Hhi). now apply sqrt_le_1_alt.
Qed.

(** C3: for positive radii the estimator returns
    pi * sqrt(a^3 / mu) with a = (r_earth + r_mars) / 2 and
    mu = 0.0002959122082855911; at r_earth = 1.0, r_mars = 1.524 the
    value lies within one day of 259. *)
Theorem hohmann_transfer_time (r_earth r_mars : R) :
  0 < r_earth -> 0 < r_mars ->
  transfer_time r_earth r_mars
  = Ok (PI * sqrt (((r_earth + r_mars) / 2) ^ 3 / 0.0002959122082855911)) /\
  exists T, transfer_time 1.0 1.524 = Ok T /\ 259 - 1 <= T <= 259 + 1.
Proof.
  intros He Hm. split.
  - apply transfer_time_nonneg. lra.
  - eexists. split; [apply transfer_time_nonneg; lra|].
    pose proof PI_bounds as [Hp1 Hp2].
    destruct (sqrt_between 82.4 82.5 (((1.0 + 1.524) / 2) ^ 3 / GM_SUN))
      as [Hs1 Hs2]; [lra|lra|unfold GM_SUN; lra|].
    set (s := sqrt (((1.0 + 1.524) / 2) ^ 3 / GM_SUN)) in *.
    split.
    + apply Rle_trans with (3.135 * 82.4); [lra|].
      apply Rmult_le_compat; lra.
    + apply Rle_trans with (3.1421 * 82.5); [|lra].
      apply Rmult_le_compat; lra.
Qed.

Lemma hohmann_transfer_time_witness :
  transfer_time 1.0 1.524
  = Ok (PI * sqrt (((1.0 + 1.524) / 2) ^ 3 / 0.0002959122082855911)) /\
  exists T, transfer_time 1.0 1.524 = Ok T /\ 259 - 1 <= T <= 259 + 1.
Proof.
  apply (hohmann_transfer_time 1.0 1.524); lra.
Defined.

(* ------------------------------------------------------------------ *)
(** ** The point labels of the travel-times chart *)

Lemma Int_part_IZR (z : Z) : Int_part (IZR z) = z.
Proof. symmetry. apply Int_part_spec. lra. Qed.

Lemma py_int_IZR (z : Z) : py_int (IZR z) = z.
Proof.
  unfold py_int. destruct (Rle_dec 0 (IZR z)) as [_|_].
  - apply Int_part_IZR.
  - rewrite <- opp_IZR, Int_part_IZR. lia.
Qed.

Lemma py_int_nonneg (x : R) : 0 <= x -> py_int x = Int_part x.
Proof.
  intros H. unfold py_int. now destruct (Rle_dec 0 x).
Qed.

Lemma Int_part_bounds (r : R) : IZR (Int_part r) <= r < IZR (Int_part r) + 1.
Proof. destruct (base_Int_part r). lra. Qed.

Lemma fmod_30_bounds (td : R) : 0 <= fmod td 30 < 30.
Proof.
  unfold fmod. pose proof (Int_part_bounds (td / 30)) as H. lra.
Qed.

(** C8: the label is "{months}m{days}d" with months = floor(td / 30)
    and days the integer part of td mod 30, which is floor(td) mod 30;
    75 days are labelled "2m15d". *)
Theorem time_label_months_days (td : R) :
  (exists months days : Z,
      time_label td
      = String.append (str_int months)
          (String.append "m" (String.append (str_int days) "d")) /\
      months = Int_part (td / 30) /\
      days = Int_part (td - 30 * IZR months) /\
      days = (Int_part td mod 30)%Z /\
      (0 <= days < 30)%Z /\
      Int_part td = (30 * months + days)%Z) /\
  time_label 75 = "2m15d"%string.
Proof.
  assert (Hgen : forall t : R,
             let q := Int_part (t / 30) in
             let d := Int_part (t - 30 * IZR q) in
             time_label t
             = String.append (str_int q)
                 (String.append "m" (String.append (str_int d) "d")) /\
             (0 <= d < 30)%Z /\ Int_part t = (30 * q + d)%Z).
  { intros t q d.
    pose proof (fmod_30_bounds t) as Hf. unfold fmod in Hf. fold q in Hf.
    pose proof (Int_part_bounds (t - 30 * IZR q)) as Hd. fold d in Hd.
    split; [|split].
    - unfold time_label, floordiv. rewrite py_int_IZR.
      rewrite py_int_nonneg by apply fmod_30_bounds. reflexivity.
    - split.
      + apply le_IZR. apply Rnot_lt_le. intros Hlt.
        assert (IZR d + 1 <= 0).
        { rewrite <- plus_IZR. apply IZR_le. apply lt_IZR in Hlt. lia. }
        lra.
      + apply lt_IZR. lra.
    - symmetry. apply Int_part_spec. rewrite plus_IZR, mult_IZR. lra. }
  split.
  - destruct (Hgen td) as (Hlabel & Hrange & Hfloor).
    exists (Int_part (td / 30)), (Int_part (td - 30 * IZR (Int_part (td / 30)))).
    repeat split; trivial; try lia.
    rewrite Hfloor. rewrite Z.add_comm, Z.mul_comm, Z_mod_plus_full.
    symmetry. apply Z.mod_small. lia.
  - destruct (Hgen 75) as (Hlabel & Hrange & Hfloor).
    assert (Hq : Int_part (75 / 30) = 2%Z) by (symmetry; apply Int_part_spec; lra).
    rewrite Hq in Hlabel, Hfloor. rewrite (Int_part_IZR 75) in Hfloor.
    assert (Hd : Int_part (75 - 30 * 2) = 15%Z) by lia.
    rewrite Hlabel, Hd. reflexivity.
Qed.

(* ------------------------------------------------------------------ *)
(** ** radial_exaggerate *)

Lemma hypot_0_0 : hypot 0 0 = 0.
Proof.
  unfold hypot. replace (0 * 0 + 0 * 0) with 0 by ring. apply sqrt_0.
Qed.

(** C6: the origin is mapped to (0, 0) exactly, whatever the plot
    limit; no logarithm, quotient or angle is evaluated. *)
Theorem radial_exaggerate_origin (max_radius : R) :
  radial_exaggerate 0 0 max_radius = (0, 0) /\
  radial_exaggerate_default 0 0 = (0, 0).
Proof.
  unfold radial_exaggerate_default, radial_exaggerate.
  rewrite hypot_0_0. destruct (Req_dec_T 0 0) as [_|Hne].
  - now split.
  - now contradiction Hne.
Qed.

Lemma hypot_sqr (x y : R) : hypot x y * hypot x y = x * x + y * y.
Proof. unfold hypot. apply sqrt_sqrt. nra. Qed.

Lemma hypot_pos (x y : R) : hypot x y <> 0 -> 0 < hypot x y.
Proof. pose proof (hypot_nonneg x y). lra. Qed.

Lemma hypot_scale (k x y : R) :
  0 <= k -> hypot (k * x) (k * y) = k * hypot x y.
Proof.
  intros Hk. unfold hypot.
  replace (k * x * (k * x) + k * y * (k * y)) with ((k * k) * (x * x + y * y))
    by ring.
  rewrite sqrt_mult by nra. now rewrite sqrt_square.
Qed.

(** The square root behind [cos (atan t)] and [sin (atan t)] at
    t = y / x. *)
Lemma sqrt_one_plus_slope (x y : R) :
  x <> 0 -> sqrt (1 + (y / x)²) = hypot x y / Rabs x.
Proof.
  intros Hx. assert (Ha : 0 < Rabs x) by now apply Rabs_pos_lt.
  replace (1 + (y / x)²) with ((x * x + y * y) / (Rabs x * Rabs x)).
  - rewrite sqrt_div_alt by nra. now rewrite sqrt_square by lra.
  - unfold Rsqr. replace (Rabs x * Rabs x) with (x * x).
    + now field.
    + unfold Rabs. destruct (Rcase_abs x); ring.
  Qed.

Lemma cos_sin_arctan2 (x y : R) :
  hypot x y <> 0 ->
  cos (arctan2 y x) = x / hypot x y /\ sin (arctan2 y x) = y / hypot x y.
Proof.
  intros Hr. pose proof (hypot_pos x y Hr) as Hpos.
  pose proof (hypot_sqr x y) as Hsq.
  unfold arctan2.
  destruct (Rlt_dec 0 x) as [Hx|Hx]; [|destruct (Rlt_dec x 0) as [Hx'|Hx']].
  - rewrite cos_atan, sin_atan, sqrt_one_plus_slope by lra.
    rewrite Rabs_pos_eq by lra. split; field; lra.
  - assert (Hs : sqrt (1 + (y / x)²) = hypot x y / - x).
    { rewrite sqrt_one_plus_slope by lra. now rewrite Rabs_left by lra. }
    destruct (Rle_dec 0 y) as [Hy|Hy].
    + rewrite neg_cos, neg_sin, cos_atan, sin_atan, Hs. split; field; lra.
    + rewrite cos_minus, sin_minus, cos_PI, sin_PI, cos_atan, sin_atan, Hs.
      split; field; lra.
  - assert (x = 0) by lra. subst x.
    assert (Hy2 : hypot 0 y * hypot 0 y = y * y) by lra.
    destruct (Rlt_dec 0 y) as [Hy|Hy]; [|destruct (Rlt_dec y 0) as [Hy'|Hy']].
    + assert (Hh : hypot 0 y = y) by nra.
      rewrite cos_PI2, sin_PI2, Hh. split; field; lra.
    + assert (Hh : hypot 0 y = - y) by nra.
      rewrite cos_neg, sin_neg, cos_PI2, sin_PI2, Hh. split; field; lra.
    + assert (y = 0) by lra. subst y. rewrite hypot_0_0 in Hr. now contradiction Hr.
Qed.

Lemma arctan2_scale (k x y : R) :
  0 < k -> arctan2 (k * y) (k * x) = arctan2 y x.
Proof.
  intros Hk. unfold arctan2.
  assert (Hq : x <> 0 -> k * y / (k * x) = y / x) by (intros; field; lra).
  destruct (Rlt_dec 0 x) as [Hx|Hx]; [|destruct (Rlt_dec x 0) as [Hx'|Hx']].
  - destruct (Rlt_dec 0 (k * x)) as [_|Hn]; [|exfalso; nra].
    now rewrite Hq by lra.
  - destruct (Rlt_dec 0 (k * x)) as [Hn|_]; [exfalso; nra|].
    destruct (Rlt_dec (k * x) 0) as [_|Hn]; [|exfalso; nra].
    rewrite Hq by lra.
    destruct (Rle_dec 0 y) as [Hy|Hy];
      destruct (Rle_dec 0 (k * y)) as [Hky|Hky]; trivial; exfalso; nra.
  - assert (x = 0) by lra. subst x.
    destruct (Rlt_dec 0 (k * 0)) as [Hn|_]; [exfalso; lra|].
    destruct (Rlt_dec (k * 0) 0) as [Hn|_]; [exfalso; lra|].
    destruct (Rlt_dec 0 y) as [Hy|Hy].
    + destruct (Rlt_dec 0 (k * y)) as [_|Hn]; [reflexivity|exfalso; nra].
    + destruct (Rlt_dec 0 (k * y)) as [Hn|_]; [exfalso; nra|].
      destruct (Rlt_dec y 0) as [Hy'|Hy'].
      * destruct (Rlt_dec (k * y) 0) as [_|Hn]; [reflexivity|exfalso; nra].
      * destruct (Rlt_dec (k * y) 0) as [Hn|_]; [exfalso; nra|reflexivity].
Qed.

(** Away from the origin the result is the input scaled by
    [r_new / r]. *)
Lemma radial_exaggerate_scaled (x y max_radius : R) :
  hypot x y <> 0 ->
  radial_exaggerate x y max_radius =
  (log1p (hypot x y) / log1p max_radius * max_radius / hypot x y * x,
   log1p (hypot x y) / log1p max_radius * max_radius / hypot x y * y).
Proof.
  intros Hr. unfold radial_exaggerate.
  destruct (Req_dec_T (hypot x y) 0) as [H0|_]; [now contradiction Hr|].
  destruct (cos_sin_arctan2 x y Hr) as [-> ->].
  f_equal; unfold Rdiv; ring.
Qed.

Lemma radial_exaggerate_polar (x y max_radius : R) :
  hypot x y <> 0 ->
  0 < log1p (hypot x y) / log1p max_radius * max_radius ->
  arctan2 (snd (radial_exaggerate x y max_radius))
          (fst (radial_exaggerate x y max_radius)) = arctan2 y x /\
  hypot (fst (radial_exaggerate x y max_radius))
        (snd (radial_exaggerate x y max_radius))
  = log1p (hypot x y) / log1p max_radius * max_radius.
Proof.
  intros Hr Hnew. pose proof (hypot_pos x y Hr) as Hpos.
  rewrite radial_exaggerate_scaled by assumption. cbn [fst snd].
  set (r_new := log1p (hypot x y) / log1p max_radius * max_radius) in *.
  assert (Hk : 0 < r_new / hypot x y).
  { apply Rmult_lt_0_compat; [assumption|now apply Rinv_0_lt_compat]. }
  split.
  - now apply arctan2_scale.
  - rewrite hypot_scale by lra. field. lra.
Qed.

Lemma log1p_pos (r : R) : 0 < r -> 0 < log1p r.
Proof.
  intros Hr. unfold log1p. rewrite <- ln_1. apply ln_increasing; lra.
Qed.

Lemma log1p_lt (a b : R) : 0 <= a -> a < b -> log1p a < log1p b.
Proof. intros Ha Hab. unfold log1p. apply ln_increasing; lra. Qed.

(** ln (1 + u) < u for positive u. *)
Lemma log1p_lt_id (u : R) : 0 < u -> log1p u < u.
Proof.
  intros Hu. unfold log1p. rewrite <- (ln_exp u) at 2.
  apply ln_increasing; [lra|]. apply exp_ineq1. lra.
Qed.

(** m / (1 + m) < ln (1 + m) for positive m. *)
Lemma log1p_gt_ratio (m : R) : 0 < m -> m / (1 + m) < log1p m.
Proof.
  intros Hm. unfold log1p.
  assert (Hinv : 0 < / (1 + m)) by (apply Rinv_0_lt_compat; lra).
  assert (H : ln (/ (1 + m)) < - (m / (1 + m))).
  { rewrite <- (ln_exp (- (m / (1 + m)))).
    apply ln_increasing; [assumption|].
    replace (/ (1 + m)) with (1 + - (m / (1 + m))) by (field; lra).
    apply exp_ineq1.
    assert (0 < m / (1 + m)) by (apply Rmult_lt_0_compat; lra). lra. }
  rewrite ln_Rinv in H by lra. lra.
Qed.

Lemma hypot_3_4 : hypot 3 4 = 5.
Proof.
  unfold hypot. replace (3 * 3 + 4 * 4) with (5 * 5) by ring.
  apply sqrt_square. lra.
Qed.

Lemma hypot_30_40 : hypot 30 40 = 50.
Proof.
  unfold hypot. replace (30 * 30 + 40 * 40) with (50 * 50) by ring.
  apply sqrt_square. lra.
Qed.

(** C7: for a point with 0 < r <= max_radius the polar angle of the
    result is the polar angle of the input, and the radius of the
    result is ln(1+r) / ln(1+max_radius) * max_radius, which is at most
    max_radius. *)
Theorem radial_exaggerate_within_limit (x y max_radius : R) :
  0 < hypot x y <= max_radius ->
  arctan2 (snd (radial_exaggerate x y max_radius))
          (fst (radial_exaggerate x y max_radius)) = arctan2 y x /\
  hypot (fst (radial_exaggerate x y max_radius))
        (snd (radial_exaggerate x y max_radius))
  = ln (1 + hypot x y) / ln (1 + max_radius) * max_radius /\
  hypot (fst (radial_exaggerate x y max_radius))
        (snd (radial_exaggerate x y max_radius)) <= max_radius.
Proof.
  intros [Hr HM].
  pose proof (log1p_pos _ Hr) as Hlr.
  assert (HlM : 0 < log1p max_radius) by (apply log1p_pos; lra).
  assert (Hle : log1p (hypot x y) <= log1p max_radius).
  { destruct HM as [Hlt| ->]; [|lra]. left. apply log1p_lt; lra. }
  assert (Hratio : 0 < log1p (hypot x y) / log1p max_radius <= 1).
  { split.
    - apply Rmult_lt_0_compat; [assumption|now apply Rinv_0_lt_compat].
    - apply Rmult_le_reg_r with (log1p max_radius); [assumption|].
      replace (log1p (hypot x y) / log1p max_radius * log1p max_radius)
        with (log1p (hypot x y)) by (field; lra).
      lra. }
  assert (Hnew : 0 < log1p (hypot x y) / log1p max_radius * max_radius)
    by (apply Rmult_lt_0_compat; lra).
  destruct (radial_exaggerate_polar x y max_radius) as [Hangle Hrad];
    [lra|assumption|].
  split; [exact Hangle|]. split; [exact Hrad|].
  rewrite Hrad. nra.
Qed.

Lemma radial_exaggerate_within_limit_witness :
  arctan2 (snd (radial_exaggerate 3 4 40))
          (fst (radial_exaggerate 3 4 40)) = arctan2 4 3 /\
  hypot (fst (radial_exaggerate 3 4 40)) (snd (radial_exaggerate 3 4 40))
  = ln (1 + hypot 3 4) / ln (1 + 40) * 40 /\
  hypot (fst (radial_exaggerate 3 4 40)) (snd (radial_exaggerate 3 4 40))
  <= 40.
Proof.
  apply (radial_exaggerate_within_limit 3 4 40).
  rewrite hypot_3_4. lra.
Defined.

(** C10: for a point whose radius exceeds a positive plot limit the
    result lies strictly beyond the limit and strictly inside the
    input radius: the transform does not clamp. *)
Theorem radial_exaggerate_beyond_limit (x y max_radius : R) :
  0 < max_radius -> max_radius < hypot x y ->
  max_radius < hypot (fst (radial_exaggerate x y max_radius))
                     (snd (radial_exaggerate x y max_radius))
             < hypot x y.
Proof.
  intros HM Hr.
  set (r := hypot x y) in *.
  assert (HlM : 0 < log1p max_radius) by (apply log1p_pos; lra).
  assert (Hlt : log1p max_radius < log1p r) by (apply log1p_lt; lra).
  assert (Hinv : 0 < / log1p max_radius) by now apply Rinv_0_lt_compat.
  assert (Hnew : 0 < log1p r / log1p max_radius * max_radius).
  { apply Rmult_lt_0_compat; [|assumption].
    apply Rmult_lt_0_compat; lra. }
  destruct (radial_exaggerate_polar x y max_radius) as [_ Hrad];
    [fold r; lra|assumption|].
  fold r in Hrad. rewrite Hrad. clear Hrad.
  (* ln (1 + r) < ln (1 + M) + (r - M) / (1 + M) *)
  assert (Hu : 0 < (r - max_radius) / (1 + max_radius)).
  { apply Rmult_lt_0_compat; [lra|apply Rinv_0_lt_compat; lra]. }
  assert (Hsplit : log1p r
                   = log1p max_radius
                     + log1p ((r - max_radius) / (1 + max_radius))).
  { unfold log1p. rewrite <- ln_mult by lra. f_equal. field. lra. }
  pose proof (log1p_lt_id _ Hu) as Hid.
  pose proof (log1p_gt_ratio _ HM) as Hratio.
  assert (Hcross : log1p r * max_radius < r * log1p max_radius).
  { assert (H1 : (r - max_radius) / (1 + max_radius) * max_radius
                 = (r - max_radius) * (max_radius / (1 + max_radius)))
      by (field; lra).
    assert (H2 : (r - max_radius) * (max_radius / (1 + max_radius))
                 < (r - max_radius) * log1p max_radius)
      by (apply Rmult_lt_compat_l; lra).
    assert (H3 : log1p ((r - max_radius) / (1 + max_radius)) * max_radius
                 < (r - max_radius) / (1 + max_radius) * max_radius)
      by (apply Rmult_lt_compat_r; lra).
    rewrite Hsplit. lra. }
  split.
  - replace max_radius with (log1p max_radius / log1p max_radius * max_radius)
      at 1 by (field; lra).
    apply Rmult_lt_compat_r; [assumption|].
    apply Rmult_lt_compat_r; assumption.
  - replace (log1p r / log1p max_radius * max_radius)
      with (log1p r * max_radius * / log1p max_radius) by (field; lra).
    replace r with (r * log1p max_radius * / log1p max_radius) at 2
      by (field; lra).
    apply Rmult_lt_compat_r; assumption.
Qed.

Lemma radial_exaggerate_beyond_limit_witness :
  40 < hypot (fst (radial_exaggerate 30 40 40)) (snd (radial_exaggerate 30 40 40))
     < hypot 30 40.
Proof.
  apply (radial_exaggerate_beyond_limit 30 40 40).
  - lra.
  - rewrite hypot_30_40. lra.
Defined.

(* ------------------------------------------------------------------ *)
(** ** Further properties of compute_launch_windows *)

Lemma length_map_records {A} (f : ApproachRecord -> A)
      (recs : list ApproachRecord) (l : list A) :
  map f recs = l -> List.length l = List.length recs.
Proof. intros <-. apply length_map. Qed.

(** X1: on a range that resolves, the four lists built by the function
    have one entry per year of the range, and the years are
    start_year, start_year + 1, ..., end_year in this order. *)
Theorem one_entry_per_year
        (eph : string -> Epoch -> option (R * R * R))
        (start_year end_year : Z) (dist_chart time_chart : string) :
  (1 <= start_year)%Z -> (end_year <= 9998)%Z ->
  (forall y, (start_year <= y <= end_year)%Z -> year_resolvable eph y) ->
  exists w tr,
    compute_launch_windows eph start_year end_year dist_chart time_chart
    = (Ok w, tr) /\
    w_years w = range start_year (end_year + 1) /\
    List.length (w_years w) = Z.to_nat (end_year + 1 - start_year) /\
    List.length (w_dates w) = List.length (w_years w) /\
    List.length (w_dists w) = List.length (w_years w) /\
    List.length (w_transfer_days w) = List.length (w_years w).
Proof.
  intros Hs He Hres.
  destruct (compute_launch_windows_resolved eph start_year end_year
              dist_chart time_chart Hs He Hres)
    as (w & Hrun & Hy & Hry & Hrd & Hrr & _ & Htr).
  exists w. eexists. split; [exact Hrun|]. split; [exact Hy|].
  split; [rewrite Hy; apply length_range|].
  rewrite (length_map_records _ _ _ Hry).
  split; [apply (length_map_records _ _ _ Hrd)|].
  split; [apply (length_map_records _ _ _ Hrr)|].
  rewrite <- (Forall2_length Htr). apply (length_map_records _ _ _ Hrd).
Qed.

Lemma one_entry_per_year_witness :
  exists w tr,
    compute_launch_windows synthetic_eph 2025 2045
      "launch_windows.png" "travel_times.png" = (Ok w, tr) /\
    w_years w = range 2025 (2045 + 1) /\
    List.length (w_years w) = Z.to_nat (2045 + 1 - 2025) /\
    List.length (w_dates w) = List.length (w_years w) /\
    List.length (w_dists w) = List.length (w_years w) /\
    List.length (w_transfer_days w) = List.length (w_years w).
Proof.
  apply (one_entry_per_year synthetic_eph 2025 2045).
  - lia.
  - lia.
  - intros y _. apply synthetic_year_resolvable.
Defined.

(** X2: on a range that resolves, every record holds a finite,
    non-negative distance; its date lies in the calendar year of the
    record when that year is a leap year, and otherwise either in that
    year or on 1 January of the following year. *)
Theorem record_distance_and_date_bounds
        (eph : string -> Epoch -> option (R * R * R))
        (start_year end_year : Z) (dist_chart time_chart : string) :
  (1 <= start_year)%Z -> (end_year <= 9998)%Z ->
  (forall y, (start_year <= y <= end_year)%Z -> year_resolvable eph y) ->
  exists w tr,
    compute_launch_windows eph start_year end_year dist_chart time_chart
    = (Ok w, tr) /\
    forall rec, In rec (approach_records w) ->
      (exists m, ar_dist rec = Fin m /\ 0 <= m) /\
      (is_leap (ar_year rec) = true -> in_year (ar_year rec) (ar_date rec)) /\
      (is_leap (ar_year rec) = false ->
       in_year (ar_year rec) (ar_date rec) \/
       ar_date rec = mkDate (ar_year rec + 1) 1 1).
Proof.
  intros Hs He Hres.
  destruct (compute_launch_windows_resolved eph start_year end_year
              dist_chart time_chart Hs He Hres)
    as (w & Hrun & _ & _ & _ & _ & Hmin & _).
  exists w. eexists. split; [exact Hrun|].
  intros rec Hin. rewrite Forall_forall in Hmin.
  destruct (first_minimum_record_bounds eph rec (Hmin rec Hin))
    as [Hdist [Hyear|[Hleap Hnext]]].
  - split; [exact Hdist|]. split; [trivial|now left].
  - split; [exact Hdist|]. split; [congruence|now right].
Qed.

Lemma record_distance_and_date_bounds_witness :
  exists w tr,
    compute_launch_windows synthetic_eph 2024 2026
      "launch_windows.png" "travel_times.png" = (Ok w, tr) /\
    forall rec, In rec (approach_records w) ->
      (exists m, ar_dist rec = Fin m /\ 0 <= m) /\
      (is_leap (ar_year rec) = true -> in_year (ar_year rec) (ar_date rec)) /\
      (is_leap (ar_year rec) = false ->
       in_year (ar_year rec) (ar_date rec) \/
       ar_date rec = mkDate (ar_year rec + 1) 1 1).
Proof.
  apply (record_distance_and_date_bounds synthetic_eph 2024 2026).
  - lia.
  - lia.
  - intros y _. apply synthetic_year_resolvable.
Defined.

(* ------------------------------------------------------------------ *)
(** ** Failures come before the charts *)

Section Outcomes.

Variable eph : string -> Epoch -> option (R * R * R).







(** X5: the scan of a common year reads the ephemeris at 1 January of
    the following year; when that epoch does not resolve the run fails
    with [DataUnavailable], without any chart and without a progress
    line for that year or a later one. *)
Theorem common_year_needs_next_new_year
        (start_year end_year : Z) (dist_chart time_chart : string) (y : Z) :
  (1 <= start_year)%Z -> (y <= 9998)%Z ->
  (start_year <= y <= end_year)%Z ->
  is_leap y = false ->
  ~ resolvable eph (mkDate (y + 1) 1 1) ->
  exists tr,
    compute_launch_windows eph start_year end_year dist_chart time_chart
    = (Raised DataUnavailable, tr) /\
    Forall (fun ev => is_chart_event ev = false) tr /\
    forall y' d r, In (EvProgress y' d r) tr -> (y' < y)%Z.
Proof.
  intros Hs He Hy Hleap Hun. apply unresolvable_none in Hun.
  destruct (scan_years_unresolved eph (range start_year y) y
              (range (y + 1) (end_year + 1)) ([], [], []))
    as (tr & Hrun & Hall).
  { intros y' Hy'. apply in_app_iff in Hy'. destruct Hy' as [Hy'|[<-|[]]].
    - apply in_range in Hy'. lia.
    - lia. }
  { exists 365%nat. split; [apply le_n|].
    now rewrite (sample_epoch_365_common_year y Hleap). }
  exists tr. split; [|split].
  - unfold compute_launch_windows.
    rewrite (range_split start_year (end_year + 1) y) by lia.
    now rewrite Hrun.
  - eapply Forall_impl; [|exact Hall].
    intros ev (y' & Hev & _). destruct ev; try discriminate Hev. reflexivity.
  - intros y' d r Hin. rewrite Forall_forall in Hall.
    destruct (Hall _ Hin) as (y'' & Hev & Hin'). cbn in Hev.
    apply Some_inj in Hev. subst y''. apply in_range in Hin'. lia.
Qed.

End Outcomes.


Lemma common_year_needs_next_new_year_witness :
  exists tr,
    compute_launch_windows (covered_until 2045) 2025 2045
      "launch_windows.png" "travel_times.png"
    = (Raised DataUnavailable, tr) /\
    Forall (fun ev => is_chart_event ev = false) tr /\
    forall y' d r, In (EvProgress y' d r) tr -> (y' < 2045)%Z.
Proof.
  apply (common_year_needs_next_new_year (covered_until 2045) 2025 2045
           "launch_windows.png" "travel_times.png" 2045).
  - lia.
  - lia.
  - lia.
  - reflexivity.
  - intros H. apply H. reflexivity.
Defined.

(* ------------------------------------------------------------------ *)
(** ** Only the x and y coordinates are used *)

Lemma for_each_ext {A S} (xs : list A) (body body' : A -> S -> M S) (s : S) :
  (forall x s', body x s' = body' x s') ->
  for_each xs body s = for_each xs body' s.
Proof.
  intros H. revert s. induction xs as [|x xs IH]; intros s; [reflexivity|].
  cbn [for_each]. rewrite H. apply bind_ext. exact IH.
Qed.

Section Planar.

Variables eph eph' : string -> Epoch -> option (R * R * R).
Hypothesis Hxy : same_xy eph eph'.

Lemma get_planet_xy_same (t : Epoch) (name : string) :
  get_planet_xy eph t name = get_planet_xy eph' t name.
Proof.
  unfold get_planet_xy. specialize (Hxy name t).
  destruct (eph name t) as [[[x y] z]|];
    destruct (eph' name t) as [[[x' y'] z']|]; try contradiction.
  - destruct Hxy as [-> ->]. reflexivity.
  - reflexivity.
Qed.

Lemma scan_year_same (y : Z) acc : scan_year eph y acc = scan_year eph' y acc.
Proof.
  destruct acc as [[years dates] dists]. unfold scan_year.
  apply bind_ext. intros d0.
  rewrite (for_each_ext (seq 0 366) (scan_step eph d0) (scan_step eph' d0));
    [reflexivity|].
  intros k best. unfold scan_step.
  apply bind_ext. intros dt. unfold earth_mars_distance.
  now rewrite !get_planet_xy_same.
Qed.

Lemma transfer_step_same (d : date) (acc : list R) :
  transfer_step eph d acc = transfer_step eph' d acc.
Proof. unfold transfer_step. now rewrite !get_planet_xy_same. Qed.

(** X6: the z coordinate of the ephemeris positions is never used: two
    ephemerides that resolve the same epochs to the same x and y make
    the function return the same lists and emit the same trace. *)
Theorem result_depends_on_xy_only
        (start_year end_year : Z) (dist_chart time_chart : string) :
  compute_launch_windows eph start_year end_year dist_chart time_chart =
  compute_launch_windows eph' start_year end_year dist_chart time_chart.
Proof.
  unfold compute_launch_windows.
  rewrite (for_each_ext _ (scan_year eph) (scan_year eph'))
    by (intros; apply scan_year_same).
  apply bind_ext. intros [[years dates] dists].
  apply bind_ext. intros _.
  rewrite (for_each_ext _ (transfer_step eph) (transfer_step eph'))
    by (intros; apply transfer_step_same).
  reflexivity.
Qed.

End Planar.

Lemma synthetic_lifted_same_xy : same_xy synthetic_eph synthetic_lifted.
Proof.
  intros name t. unfold synthetic_lifted.
  destruct (synthetic_eph name t) as [[[x y] z]|]; [now split|exact I].
Qed.

Lemma result_depends_on_xy_only_witness :
  compute_launch_windows synthetic_eph 2025 2045
    "launch_windows.png" "travel_times.png" =
  compute_launch_windows synthetic_lifted 2025 2045
    "launch_windows.png" "travel_times.png".
Proof.
  apply (result_depends_on_xy_only synthetic_eph synthetic_lifted
           synthetic_lifted_same_xy).
Defined.

(* ------------------------------------------------------------------ *)
(** ** Further properties of the transfer time *)

Lemma Ok_inj {A} (a b : A) : Ok a = Ok b -> a = b.
Proof. now intros [= ->]. Qed.

(** X7: the estimator raises exactly when the two radii sum to a
    negative number ([math.sqrt] of a negative quotient); otherwise it
    returns a non-negative duration. *)
Theorem transfer_time_domain (r_e r_m : R) :
  (transfer_time r_e r_m = Raised ValueError <-> r_e + r_m < 0) /\
  ((exists T, transfer_time r_e r_m = Ok T /\ 0 <= T) <-> 0 <= r_e + r_m).
Proof.
  destruct (Rlt_dec (r_e + r_m) 0) as [Hneg|Hnn].
  - rewrite (transfer_time_negative _ _ Hneg). split.
    + tauto.
    + split; [intros (T & HT & _); discriminate|lra].
  - apply Rnot_lt_le in Hnn. rewrite (transfer_time_nonneg _ _ Hnn). split.
    + split; [discriminate|lra].
    + split; [trivial|]. intros _. eexists. split; [reflexivity|].
      apply Rmult_le_pos; [left; apply PI_RGT_0|apply sqrt_pos].
Qed.

(** X8: Kepler's third law for the half period: whenever a duration T
    is returned, T^2 * mu = pi^2 * a^3 with a = (r_e + r_m) / 2. *)
Theorem transfer_time_kepler (r_e r_m T : R) :
  transfer_time r_e r_m = Ok T ->
  T * T * GM_SUN = PI * PI * ((r_e + r_m) / 2) ^ 3.
Proof.
  intros HT. pose proof GM_SUN_pos as Hg.
  destruct (Rlt_dec (r_e + r_m) 0) as [Hneg|Hnn].
  - rewrite (transfer_time_negative _ _ Hneg) in HT. discriminate.
  - apply Rnot_lt_le in Hnn. rewrite (transfer_time_nonneg _ _ Hnn) in HT.
    apply Ok_inj in HT. subst T.
    set (q := ((r_e + r_m) / 2) ^ 3 / GM_SUN).
    assert (Hq : 0 <= q).
    { unfold q. apply Rmult_le_pos; [apply pow_le; lra|].
      left. now apply Rinv_0_lt_compat. }
    replace (PI * sqrt q * (PI * sqrt q) * GM_SUN)
      with (PI * PI * (sqrt q * sqrt q) * GM_SUN) by ring.
    rewrite (sqrt_sqrt q Hq). unfold q. field. lra.
Qed.

Lemma transfer_time_kepler_witness :
  PI * sqrt (((1 + 3) / 2) ^ 3 / GM_SUN)
  * (PI * sqrt (((1 + 3) / 2) ^ 3 / GM_SUN)) * GM_SUN
  = PI * PI * ((1 + 3) / 2) ^ 3.
Proof.
  apply (transfer_time_kepler 1 3). apply transfer_time_nonneg. lra.
Defined.

(** X9: the duration depends on the radii only through their sum and
    grows with it. *)
Theorem transfer_time_monotone (r_e r_m r_e' r_m' : R) :
  0 <= r_e + r_m -> r_e + r_m <= r_e' + r_m' ->
  exists T T',
    transfer_time r_e r_m = Ok T /\ transfer_time r_e' r_m' = Ok T' /\
    T <= T' /\ (r_e + r_m = r_e' + r_m' -> T = T').
Proof.
  intros H0 Hle. pose proof GM_SUN_pos as Hg.
  rewrite !transfer_time_nonneg by lra.
  eexists. eexists. split; [reflexivity|]. split; [reflexivity|]. split.
  - apply Rmult_le_compat_l; [left; apply PI_RGT_0|].
    apply sqrt_le_1_alt.
    apply Rmult_le_compat_r; [left; now apply Rinv_0_lt_compat|].
    apply pow_incr. lra.
  - intros Heq. now rewrite Heq.
Qed.

Lemma transfer_time_monotone_witness :
  exists T T',
    transfer_time 1 1.4 = Ok T /\ transfer_time 1 1.6 = Ok T' /\
    T <= T' /\ (1 + 1.4 = 1 + 1.6 -> T = T').
Proof.
  apply (transfer_time_monotone 1 1.4 1 1.6); lra.
Defined.

(* ------------------------------------------------------------------ *)
(** ** Further properties of radial_exaggerate *)

(** For a positive limit the radius of the result is
    ln(1+r) / ln(1+max_radius) * max_radius, the origin included. *)
Lemma exaggerated_radius (x y max_radius : R) :
  0 < max_radius ->
  hypot (fst (radial_exaggerate x y max_radius))
        (snd (radial_exaggerate x y max_radius))
  = log1p (hypot x y) / log1p max_radius * max_radius.
Proof.
  intros HM. destruct (Req_dec_T (hypot x y) 0) as [H0|Hne].
  - unfold radial_exaggerate. rewrite H0.
    destruct (Req_dec_T 0 0) as [_|Hn]; [|now contradiction Hn].
    cbn [fst snd]. rewrite hypot_0_0. unfold log1p.
    replace (1 + 0) with 1 by ring. rewrite ln_1. unfold Rdiv. ring.
  - apply radial_exaggerate_polar; [assumption|].
    pose proof (hypot_pos x y Hne) as Hr.
    pose proof (log1p_pos _ Hr). pose proof (log1p_pos _ HM).
    apply Rmult_lt_0_compat; [|assumption].
    apply Rmult_lt_0_compat; [assumption|now apply Rinv_0_lt_compat].
Qed.

(** ln(1+t) / t decreases: b * ln(1+a) > a * ln(1+b) for 0 < a < b. *)
Lemma log1p_cross (a b : R) :
  0 < a -> a < b -> log1p b * a < b * log1p a.
Proof.
  intros Ha Hab.
  assert (Hu : 0 < (b - a) / (1 + a)).
  { apply Rmult_lt_0_compat; [lra|apply Rinv_0_lt_compat; lra]. }
  assert (Hsplit : log1p b = log1p a + log1p ((b - a) / (1 + a))).
  { unfold log1p. rewrite <- ln_mult by lra. f_equal. field. lra. }
  pose proof (log1p_lt_id _ Hu) as Hid.
  pose proof (log1p_gt_ratio _ Ha) as Hratio.
  assert (H1 : (b - a) / (1 + a) * a = (b - a) * (a / (1 + a)))
    by (field; lra).
  assert (H2 : (b - a) * (a / (1 + a)) < (b - a) * log1p a)
    by (apply Rmult_lt_compat_l; lra).
  assert (H3 : log1p ((b - a) / (1 + a)) * a < (b - a) / (1 + a) * a)
    by (apply Rmult_lt_compat_r; lra).
  rewrite Hsplit. lra.
Qed.

(** X10: the circle of radius max_radius is fixed pointwise. *)
Theorem radial_exaggerate_fixes_limit_circle (x y max_radius : R) :
  0 < max_radius -> hypot x y = max_radius ->
  radial_exaggerate x y max_radius = (x, y).
Proof.
  intros HM Hr. pose proof (log1p_pos _ HM) as Hl.
  rewrite radial_exaggerate_scaled by lra. rewrite Hr.
  f_equal; field; lra.
Qed.

Lemma radial_exaggerate_fixes_limit_circle_witness :
  radial_exaggerate 30 40 50 = (30, 40).
Proof.
  apply (radial_exaggerate_fixes_limit_circle 30 40 50).
  - lra.
  - apply hypot_30_40.
Defined.

(** X11: a point strictly inside the limit circle, other than the
    origin, is moved outward but stays strictly inside the circle. *)
Theorem radial_exaggerate_pushes_outward (x y max_radius : R) :
  0 < hypot x y -> hypot x y < max_radius ->
  hypot x y < hypot (fst (radial_exaggerate x y max_radius))
                    (snd (radial_exaggerate x y max_radius))
            < max_radius.
Proof.
  intros Hr HM. set (r := hypot x y) in *.
  rewrite exaggerated_radius by lra. fold r.
  assert (HlM : 0 < log1p max_radius) by (apply log1p_pos; lra).
  assert (Hlr : 0 < log1p r) by now apply log1p_pos.
  assert (Hlt : log1p r < log1p max_radius) by (apply log1p_lt; lra).
  assert (Hinv : 0 < / log1p max_radius) by now apply Rinv_0_lt_compat.
  pose proof (log1p_cross r max_radius Hr HM) as Hcross.
  split.
  - replace r with (log1p max_radius * r * / log1p max_radius) at 1
      by (field; lra).
    replace (log1p r / log1p max_radius * max_radius)
      with (max_radius * log1p r * / log1p max_radius) by (field; lra).
    apply Rmult_lt_compat_r; assumption.
  - assert (Hq : log1p r / log1p max_radius < 1).
    { replace 1 with (log1p max_radius / log1p max_radius) by (field; lra).
      apply Rmult_lt_compat_r; assumption. }
    apply Rlt_le_trans with (1 * max_radius); [|lra].
    apply Rmult_lt_compat_r; lra.
Qed.

Lemma radial_exaggerate_pushes_outward_witness :
  hypot 3 4 < hypot (fst (radial_exaggerate 3 4 40))
                    (snd (radial_exaggerate 3 4 40))
            < 40.
Proof.
  apply (radial_exaggerate_pushes_outward 3 4 40); rewrite hypot_3_4; lra.
Defined.

(** X12: the transform keeps the order of the distances from the
    origin: of two points, the one farther away is drawn farther away. *)
Theorem radial_exaggerate_keeps_radial_order (x1 y1 x2 y2 max_radius : R) :
  0 < max_radius -> hypot x1 y1 < hypot x2 y2 ->
  hypot (fst (radial_exaggerate x1 y1 max_radius))
        (snd (radial_exaggerate x1 y1 max_radius))
  < hypot (fst (radial_exaggerate x2 y2 max_radius))
          (snd (radial_exaggerate x2 y2 max_radius)).
Proof.
  intros HM Hlt. rewrite !exaggerated_radius by assumption.
  assert (HlM : 0 < log1p max_radius) by now apply log1p_pos.
  pose proof (hypot_nonneg x1 y1) as H1.
  apply Rmult_lt_compat_r; [assumption|].
  apply Rmult_lt_compat_r; [now apply Rinv_0_lt_compat|].
  now apply log1p_lt.
Qed.

Lemma radial_exaggerate_keeps_radial_order_witness :
  hypot (fst (radial_exaggerate 3 4 40)) (snd (radial_exaggerate 3 4 40))
  < hypot (fst (radial_exaggerate 30 40 40)) (snd (radial_exaggerate 30 40 40)).
Proof.
  apply (radial_exaggerate_keeps_radial_order 3 4 30 40 40).
  - lra.
  - rewrite hypot_3_4, hypot_30_40. lra.
Defined.

(* ------------------------------------------------------------------ *)
(** ** Dictionaries *)

Lemma dict_get_set_same {V} (d : dict V) (k : string) (v : V) :
  dict_get (dict_set d k v) k = Some v.
Proof.
  induction d as [|[k' v'] d IH]; cbn [dict_set dict_get].
  - now rewrite String.eqb_refl.
  - destruct (String.eqb k' k) eqn:E; cbn [dict_get]; rewrite E; trivial.
Qed.

Lemma dict_get_set_other {V} (d : dict V) (k k' : string) (v : V) :
  k <> k' -> dict_get (dict_set d k v) k' = dict_get d k'.
Proof.
  intros Hne. induction d as [|[k0 v0] d IH]; cbn [dict_set dict_get].
  - destruct (String.eqb k k') eqn:E; [|reflexivity].
    apply String.eqb_eq in E. contradiction.
  - destruct (String.eqb k0 k) eqn:E; cbn [dict_get].
    + apply String.eqb_eq in E. subst k0.
      destruct (String.eqb k k') eqn:E'; [|reflexivity].
      apply String.eqb_eq in E'. contradiction.
    + now rewrite IH.
Qed.

Lemma dict_set_set {V} (d : dict V) (k : string) (v v' : V) :
  dict_set (dict_set d k v) k v' = dict_set d k v'.
Proof.
  induction d as [|[k0 v0] d IH]; cbn [dict_set].
  - now rewrite String.eqb_refl.
  - destruct (String.eqb k0 k) eqn:E; cbn [dict_set]; rewrite E; trivial.
    now rewrite IH.
Qed.

Lemma dict_get_map_const {V} (names : list string) (v : V) (k : string) :
  In k names -> dict_get (map (fun name => (name, v)) names) k = Some v.
Proof.
  induction names as [|n names IH]; intros Hin; [contradiction|].
  cbn [map dict_get]. destruct (String.eqb n k) eqn:E; [reflexivity|].
  destruct Hin as [->|Hin]; [|now apply IH].
  now rewrite String.eqb_refl in E.
Qed.

Lemma dict_get_map_const_inv {V} (names : list string) (v w : V)
      (k : string) :
  dict_get (map (fun name => (name, v)) names) k = Some w -> w = v.
Proof.
  induction names as [|n names IH]; cbn [map dict_get]; [discriminate|].
  destruct (String.eqb n k); [now intros [= <-]|exact IH].
Qed.

(* ------------------------------------------------------------------ *)
(** ** One planet in one frame *)

Lemma abind_done {A B} (m : AM A) (k : A -> AM B) (st st' : anim_state)
      (a : A) :
  m st = (Done a, st') -> abind m k st = k a st'.
Proof. intros H. unfold abind. now rewrite H. Qed.

Lemma abind_failed {A B} (m : AM A) (k : A -> AM B) (st st' : anim_state)
      (e : anim_exn) :
  m st = (Failed e, st') -> abind m k st = (Failed e, st').
Proof. intros H. unfold abind. now rewrite H. Qed.

Lemma aret_done {A} (a : A) (st : anim_state) : aret a st = (Done a, st).
Proof. reflexivity. Qed.

Lemma draw_done (c : draw_call) (st : anim_state) :
  draw c st = (Done tt, mkAnim (current_days st) (histories st)
                               (draw_calls st ++ [c])).
Proof. reflexivity. Qed.

Lemma pop0_snoc (l : list R) (v : R) : pop0 (l ++ [v]) = Done (tl (l ++ [v])).
Proof. now destruct l. Qed.

Lemma mutate_history_found (name : string) (f : trail -> outcome trail)
      (cd : R) (H : dict trail) (calls : list draw_call) (h h' : trail) :
  dict_get H name = Some h -> f h = Done h' ->
  mutate_history name f (mkAnim cd H calls) =
  (Done tt, mkAnim cd (dict_set H name h') calls).
Proof.
  intros Hget Hf. unfold mutate_history. cbn [histories]. now rewrite Hget, Hf.
Qed.

Lemma lookup_history_found (name : string) (cd : R) (H : dict trail)
      (calls : list draw_call) (h : trail) :
  dict_get H name = Some h ->
  lookup_history name (mkAnim cd H calls) = (Done h, mkAnim cd H calls).
Proof.
  intros Hget. unfold lookup_history. cbn [histories]. now rewrite Hget.
Qed.

Section Frame.

Variable observe_tt : string -> R -> option (R * R * R).
Variable start_tt : R.

Lemma update_planet_resolved (t : R) (name : string) (st : anim_state)
      (h : trail) :
  observe_tt name t <> None ->
  dict_get (histories st) name = Some h ->
  update_planet observe_tt t name st =
  (Done tt,
   mkAnim (current_days st)
          (dict_set (histories st) name (advance_trail observe_tt t name h))
          (draw_calls st ++ planet_calls observe_tt t (histories st) name)).
Proof.
  intros Hobs Hget. unfold update_planet, get_planet_xy_tt, planet_calls,
                      advance_trail.
  rewrite Hget.
  destruct (observe_tt name t) as [[[rx ry] rz]|]; [clear Hobs|congruence].
  set (xy := radial_exaggerate rx ry AXIS_LIMIT).
  destruct st as [cd H calls]. cbn [histories current_days draw_calls] in *.
  rewrite (abind_done _ _ _ _ _ (aret_done (rx, ry) _)). cbn [fst snd]. fold xy.
  rewrite (abind_done _ _ _ _ _ (lookup_history_found name cd H calls h Hget)).
  rewrite (abind_done _ _ _ _ _
             (mutate_history_found name (append_x (fst xy)) cd H calls h _
                Hget eq_refl)).
  rewrite (abind_done _ _ _ _ _
             (mutate_history_found name (append_y (snd xy)) cd _ calls _ _
                (dict_get_set_same H name _) eq_refl)).
  cbn [trail_x trail_y]. rewrite dict_set_set.
  rewrite (abind_done _ _ _ _ _
             (lookup_history_found name cd _ calls _
                (dict_get_set_same H name _))).
  cbn [trail_x trail_y]. unfold slide.
  rewrite length_app. cbn [List.length]. rewrite Nat.add_1_r.
  destruct (TRAIL_LENGTH <? S (List.length (trail_x h)))%nat.
  - assert (Hpx : pop_x (mkTrail (trail_x h ++ [fst xy]) (trail_y h ++ [snd xy]))
                  = Done (mkTrail (tl (trail_x h ++ [fst xy]))
                                  (trail_y h ++ [snd xy]))).
    { unfold pop_x. cbn [trail_x trail_y]. now rewrite pop0_snoc. }
    assert (Hpy : pop_y (mkTrail (tl (trail_x h ++ [fst xy]))
                                 (trail_y h ++ [snd xy]))
                  = Done (mkTrail (tl (trail_x h ++ [fst xy]))
                                  (tl (trail_y h ++ [snd xy])))).
    { unfold pop_y. cbn [trail_x trail_y]. now rewrite pop0_snoc. }
    assert (Hpop :
              abind (mutate_history name pop_x)
                    (fun _ => mutate_history name pop_y)
                    (mkAnim cd
                       (dict_set H name
                          (mkTrail (trail_x h ++ [fst xy])
                                   (trail_y h ++ [snd xy]))) calls)
              = (Done tt,
                 mkAnim cd
                   (dict_set H name
                      (mkTrail (tl (trail_x h ++ [fst xy]))
                               (tl (trail_y h ++ [snd xy])))) calls)).
    { rewrite (abind_done _ _ _ _ _
                 (mutate_history_found name pop_x cd _ calls _ _
                    (dict_get_set_same H name _) Hpx)).
      rewrite dict_set_set.
      rewrite (mutate_history_found name pop_y cd _ calls _ _
                 (dict_get_set_same H name _) Hpy).
      now rewrite dict_set_set. }
    rewrite (abind_done _ _ _ _ _ Hpop).
    rewrite (abind_done _ _ _ _ _ (draw_done _ _)).
    cbn [histories current_days draw_calls].
    rewrite (abind_done _ _ _ _ _
               (lookup_history_found name cd _ _ _
                  (dict_get_set_same H name _))).
    rewrite draw_done. cbn [histories current_days draw_calls trail_x trail_y].
    now rewrite <- app_assoc.
  - rewrite (abind_done _ _ _ _ _ (aret_done tt _)).
    rewrite (abind_done _ _ _ _ _ (draw_done _ _)).
    cbn [histories current_days draw_calls].
    rewrite (abind_done _ _ _ _ _
               (lookup_history_found name cd _ _ _
                  (dict_get_set_same H name _))).
    rewrite draw_done. cbn [histories current_days draw_calls trail_x trail_y].
    now rewrite <- app_assoc.
Qed.

Lemma update_planet_unresolved (t : R) (name : string) (st : anim_state) :
  observe_tt name t = None ->
  update_planet observe_tt t name st = (Failed EphemerisError, st).
Proof.
  intros Hobs. unfold update_planet, get_planet_xy_tt. rewrite Hobs.
  reflexivity.
Qed.

End Frame.

(* ------------------------------------------------------------------ *)
(** ** One frame *)

Lemma afor_each_app {A} (xs ys : list A) (body : A -> AM unit)
      (st : anim_state) :
  afor_each (xs ++ ys) body st =
  match afor_each xs body st with
  | (Done _, st') => afor_each ys body st'
  | (Failed e, st') => (Failed e, st')
  end.
Proof.
  revert st. induction xs as [|x xs IH]; intros st; [reflexivity|].
  cbn [app afor_each]. unfold abind.
  destruct (body x st) as [[[]|e] st1]; [apply IH|reflexivity].
Qed.

Lemma flat_map_ext_in {A B} (f g : A -> list B) (l : list A) :
  (forall a, In a l -> f a = g a) -> flat_map f l = flat_map g l.
Proof.
  induction l as [|a l IH]; intros H; [reflexivity|].
  cbn [flat_map]. rewrite (H a (or_introl eq_refl)), IH; [reflexivity|].
  intros b Hb. apply H. now right.
Qed.

Lemma target_planets_nodup : NoDup TARGET_PLANETS.
Proof.
  unfold TARGET_PLANETS.
  repeat (constructor; [cbn [In]; intuition discriminate|]). constructor.
Qed.

Lemma first_unresolved {A} (P : A -> bool) (ns : list A) :
  (forall n, In n ns -> P n = true) \/
  (exists pre n post,
      ns = pre ++ n :: post /\ (forall m, In m pre -> P m = true) /\
      P n = false).
Proof.
  induction ns as [|n ns [IH|(pre & m & post & -> & Hpre & Hm)]].
  - left. intros n [].
  - destruct (P n) eqn:E.
    + left. intros k [<-|Hk]; [assumption|now apply IH].
    + right. exists [], n, ns. repeat split; trivial. intros k [].
  - destruct (P n) eqn:E.
    + right. exists (n :: pre), m, post. repeat split; trivial.
      intros k [<-|Hk]; [assumption|now apply Hpre].
    + right. exists [], n, (pre ++ m :: post). repeat split; trivial.
      intros k [].
Qed.

Lemma planet_calls_same_trail
      (observe_tt : string -> R -> option (R * R * R)) (t : R)
      (h h' : dict trail) (name : string) :
  dict_get h' name = dict_get h name ->
  planet_calls observe_tt t h' name = planet_calls observe_tt t h name.
Proof. intros H. unfold planet_calls. now rewrite H. Qed.

Section Frames.

Variable observe_tt : string -> R -> option (R * R * R).
Variable start_tt : R.

(** The loop over planets that all resolve and all have a trail. *)
Lemma update_loop_resolved (t : R) (ns : list string) (st : anim_state) :
  NoDup ns ->
  (forall n, In n ns -> dict_get (histories st) n <> None) ->
  (forall n, In n ns -> observe_tt n t <> None) ->
  exists st',
    afor_each ns (update_planet observe_tt t) st = (Done tt, st') /\
    current_days st' = current_days st /\
    (forall k, In k ns ->
       dict_get (histories st') k
       = option_map (advance_trail observe_tt t k) (dict_get (histories st) k)) /\
    (forall k, ~ In k ns ->
       dict_get (histories st') k = dict_get (histories st) k) /\
    draw_calls st'
    = draw_calls st ++ flat_map (planet_calls observe_tt t (histories st)) ns.
Proof.
  revert st. induction ns as [|n ns IH]; intros st Hnd Hkeys Hobs.
  - exists st. cbn [afor_each flat_map]. rewrite app_nil_r.
    repeat split; trivial. intros k [].
  - inversion Hnd as [|? ? Hnotin Hnd']; subst.
    destruct (dict_get (histories st) n) as [h|] eqn:Hget;
      [|now destruct (Hkeys n (or_introl eq_refl))].
    pose proof (update_planet_resolved observe_tt t n st h
                  (Hobs n (or_introl eq_refl)) Hget) as Hstep.
    set (st1 := mkAnim (current_days st)
                  (dict_set (histories st) n (advance_trail observe_tt t n h))
                  (draw_calls st ++ planet_calls observe_tt t (histories st) n))
      in *.
    assert (Hother : forall k, k <> n ->
              dict_get (histories st1) k = dict_get (histories st) k).
    { intros k Hk. unfold st1. cbn [histories].
      apply dict_get_set_other. congruence. }
    destruct (IH st1 Hnd') as (st' & Hrun & Hcd & Hin & Hout & Hcalls).
    { intros m Hm. rewrite Hother; [apply Hkeys; now right|].
      intros ->. contradiction. }
    { intros m Hm. apply Hobs. now right. }
    exists st'. cbn [afor_each]. rewrite (abind_done _ _ _ _ _ Hstep).
    split; [exact Hrun|]. split; [exact Hcd|]. split; [|split].
    + intros k [<-|Hk].
      * rewrite (Hout n Hnotin). unfold st1. cbn [histories].
        now rewrite dict_get_set_same, Hget.
      * rewrite (Hin k Hk), Hother; [reflexivity|].
        intros ->. contradiction.
    + intros k Hk. rewrite Hout by (intros Hk'; apply Hk; now right).
      apply Hother. intros ->. apply Hk. now left.
    + rewrite Hcalls. unfold st1 at 1. cbn [draw_calls flat_map].
      rewrite <- app_assoc. f_equal. f_equal.
      apply flat_map_ext_in. intros m Hm.
      apply planet_calls_same_trail, Hother. intros ->. contradiction.
Qed.

(** The loop stops at the first planet that does not resolve. *)
Lemma update_loop_unresolved (t : R) (pre : list string) (n : string)
      (post : list string) (st : anim_state) :
  NoDup pre ->
  (forall m, In m pre -> dict_get (histories st) m <> None) ->
  (forall m, In m pre -> observe_tt m t <> None) ->
  observe_tt n t = None ->
  exists st',
    afor_each (pre ++ n :: post) (update_planet observe_tt t) st
    = (Failed EphemerisError, st') /\
    current_days st' = current_days st /\
    (forall k, In k pre ->
       dict_get (histories st') k
       = option_map (advance_trail observe_tt t k) (dict_get (histories st) k)) /\
    (forall k, ~ In k pre ->
       dict_get (histories st') k = dict_get (histories st) k) /\
    draw_calls st'
    = draw_calls st ++ flat_map (planet_calls observe_tt t (histories st)) pre.
Proof.
  intros Hnd Hkeys Hobs Hnone.
  destruct (update_loop_resolved t pre st Hnd Hkeys Hobs)
    as (st' & Hrun & Hrest).
  exists st'. rewrite afor_each_app, Hrun. cbn [afor_each].
  rewrite (abind_failed _ _ _ _ _
             (update_planet_unresolved observe_tt t n st' Hnone)).
  now split.
Qed.

End Frames.

Section Callback.

Variable observe_tt : string -> R -> option (R * R * R).
Variable start_tt : R.

Lemma update_unfold (frame : nat) (st : anim_state) :
  update observe_tt start_tt frame st =
  match afor_each TARGET_PLANETS
          (update_planet observe_tt
             (start_tt + (current_days st + DAYS_PER_FRAME)))
          (mkAnim (current_days st + DAYS_PER_FRAME) (histories st)
                  (draw_calls st)) with
  | (Done _, st1) =>
      (Done frame_artists,
       mkAnim (current_days st1) (histories st1)
              (draw_calls st1 ++ [SetText (start_tt + current_days st1)]))
  | (Failed e, st1) => (Failed e, st1)
  end.
Proof.
  unfold update, abind. cbn [current_days].
  destruct (afor_each TARGET_PLANETS _ _) as [[[]|e] st1]; reflexivity.
Qed.

(** X13: a frame in which every target planet resolves.  The clock
    advances by DAYS_PER_FRAME; the trail of every target planet gets
    the exaggerated position at the new epoch appended and, when its x
    list then holds more than TRAIL_LENGTH points, loses its oldest
    point; other entries of [histories] are untouched; the artists of
    each planet are updated in the order of TARGET_PLANETS and the date
    text last; the artists are returned. *)
Theorem update_frame_resolved (frame : nat) (st : anim_state) :
  (forall name, In name TARGET_PLANETS ->
     dict_get (histories st) name <> None) ->
  (forall name, In name TARGET_PLANETS ->
     observe_tt name (start_tt + (current_days st + DAYS_PER_FRAME)) <> None) ->
  exists st',
    update observe_tt start_tt frame st = (Done frame_artists, st') /\
    current_days st' = current_days st + DAYS_PER_FRAME /\
    (forall name, In name TARGET_PLANETS ->
       dict_get (histories st') name
       = option_map
           (advance_trail observe_tt
              (start_tt + (current_days st + DAYS_PER_FRAME)) name)
           (dict_get (histories st) name)) /\
    (forall name, ~ In name TARGET_PLANETS ->
       dict_get (histories st') name = dict_get (histories st) name) /\
    draw_calls st'
    = draw_calls st ++
      flat_map (planet_calls observe_tt
                  (start_tt + (current_days st + DAYS_PER_FRAME))
                  (histories st)) TARGET_PLANETS ++
      [SetText (start_tt + (current_days st + DAYS_PER_FRAME))].
Proof.
  intros Hkeys Hobs. rewrite update_unfold.
  destruct (update_loop_resolved observe_tt
              (start_tt + (current_days st + DAYS_PER_FRAME)) TARGET_PLANETS
              (mkAnim (current_days st + DAYS_PER_FRAME) (histories st)
                      (draw_calls st)) target_planets_nodup Hkeys Hobs)
    as (st1 & -> & Hcd & Hin & Hout & Hcalls).
  cbn [current_days histories draw_calls] in *.
  eexists. split; [reflexivity|]. cbn [current_days histories draw_calls].
  rewrite Hcd, Hcalls, <- app_assoc. repeat split; trivial.
Qed.

(** X14: a frame in which some target planet does not resolve.  The
    callback raises at the first such planet of TARGET_PLANETS.  By then
    the clock has already advanced and the planets before it have been
    updated; that planet and the later ones keep their trails, and the
    date text is not updated. *)
Theorem update_frame_unresolved (frame : nat) (st : anim_state)
        (pre : list string) (n : string) (post : list string) :
  TARGET_PLANETS = pre ++ n :: post ->
  (forall name, In name pre -> dict_get (histories st) name <> None) ->
  (forall name, In name pre ->
     observe_tt name (start_tt + (current_days st + DAYS_PER_FRAME)) <> None) ->
  observe_tt n (start_tt + (current_days st + DAYS_PER_FRAME)) = None ->
  exists st',
    update observe_tt start_tt frame st = (Failed EphemerisError, st') /\
    current_days st' = current_days st + DAYS_PER_FRAME /\
    (forall name, In name pre ->
       dict_get (histories st') name
       = option_map
           (advance_trail observe_tt
              (start_tt + (current_days st + DAYS_PER_FRAME)) name)
           (dict_get (histories st) name)) /\
    (forall name, ~ In name pre ->
       dict_get (histories st') name = dict_get (histories st) name) /\
    draw_calls st'
    = draw_calls st ++
      flat_map (planet_calls observe_tt
                  (start_tt + (current_days st + DAYS_PER_FRAME))
                  (histories st)) pre.
Proof.
  intros Hsplit Hkeys Hobs Hnone. rewrite update_unfold, Hsplit.
  assert (Hnd : NoDup pre).
  { pose proof target_planets_nodup as H. rewrite Hsplit in H.
    now apply NoDup_app_remove_r in H. }
  destruct (update_loop_unresolved observe_tt
              (start_tt + (current_days st + DAYS_PER_FRAME)) pre n post
              (mkAnim (current_days st + DAYS_PER_FRAME) (histories st)
                      (draw_calls st)) Hnd Hkeys Hobs Hnone)
    as (st1 & -> & Hcd & Hin & Hout & Hcalls).
  exists st1. now repeat split.
Qed.

End Callback.

(* ------------------------------------------------------------------ *)
(** ** The trails stay well formed *)

Lemma length_tl_snoc {A} (l : list A) (v : A) :
  List.length (tl (l ++ [v])) = List.length l.
Proof.
  destruct l as [|a l]; [reflexivity|].
  cbn [app tl List.length]. rewrite length_app. cbn [List.length]. lia.
Qed.

Lemma advance_trail_lengths
      (observe_tt : string -> R -> option (R * R * R)) (t : R)
      (name : string) (h : trail) :
  List.length (trail_x h) = List.length (trail_y h) ->
  (List.length (trail_x h) <= TRAIL_LENGTH)%nat ->
  List.length (trail_x (advance_trail observe_tt t name h))
  = List.length (trail_y (advance_trail observe_tt t name h)) /\
  (List.length (trail_x (advance_trail observe_tt t name h))
   <= TRAIL_LENGTH)%nat.
Proof.
  intros Heq Hle. unfold advance_trail.
  destruct (observe_tt name t) as [[[rx ry] rz]|]; [|now split].
  cbn [trail_x trail_y]. unfold slide.
  destruct (Nat.ltb_spec TRAIL_LENGTH (S (List.length (trail_x h)))) as [Hlt|Hge].
  - rewrite !length_tl_snoc. split; [assumption|assumption].
  - rewrite !length_app. cbn [List.length]. lia.
Qed.

(** A dictionary obtained by advancing some trails of a well-formed
    one is well formed. *)
Lemma trails_ok_advanced
      (observe_tt : string -> R -> option (R * R * R)) (t : R)
      (h h' : dict trail) :
  trails_ok h ->
  (forall k,
      dict_get h' k = dict_get h k \/
      dict_get h' k = option_map (advance_trail observe_tt t k) (dict_get h k)) ->
  trails_ok h'.
Proof.
  intros [Hkeys Hlen] Hrel. split.
  - intros name Hin. specialize (Hkeys name Hin).
    destruct (Hrel name) as [->| ->]; [assumption|].
    destruct (dict_get h name); [discriminate|congruence].
  - intros name tr Hget. destruct (Hrel name) as [E|E]; rewrite E in Hget.
    + now apply (Hlen name).
    + destruct (dict_get h name) as [old|] eqn:Hold; [|discriminate].
      cbn [option_map] in Hget. apply Some_inj in Hget. subst tr.
      destruct (Hlen name old Hold) as [Heq Hle].
      now apply advance_trail_lengths.
Qed.

Lemma in_dec_string (k : string) (l : list string) : In k l \/ ~ In k l.
Proof. destruct (in_dec string_dec k l); [now left|now right]. Qed.

(** X15: from a state in which every target planet has a trail of at
    most TRAIL_LENGTH points with x and y lists of equal length, a
    call of the callback leads to such a state again, whether it
    returns or raises; it returns the artists or raises the ephemeris
    error, never a KeyError or an IndexError. *)
Theorem update_keeps_trails_bounded
        (observe_tt : string -> R -> option (R * R * R)) (start_tt : R)
        (frame : nat) (st : anim_state) :
  trails_ok (histories st) ->
  trails_ok (histories (snd (update observe_tt start_tt frame st))) /\
  (fst (update observe_tt start_tt frame st) = Done frame_artists \/
   fst (update observe_tt start_tt frame st) = Failed EphemerisError).
Proof.
  intros Hok. pose proof Hok as [Hkeys _]. rewrite update_unfold.
  set (t := start_tt + (current_days st + DAYS_PER_FRAME)).
  set (st0 := mkAnim (current_days st + DAYS_PER_FRAME) (histories st)
                     (draw_calls st)).
  destruct (first_unresolved
              (fun n => match observe_tt n t with Some _ => true | None => false end)
              TARGET_PLANETS) as [Hall|(pre & n & post & Hsplit & Hpre & Hn)].
  - destruct (update_loop_resolved observe_tt t TARGET_PLANETS st0
                target_planets_nodup Hkeys)
      as (st1 & -> & _ & Hin & Hout & _).
    { intros m Hm. specialize (Hall m Hm).
      destruct (observe_tt m t); [discriminate|discriminate]. }
    cbn [fst snd histories]. split; [|now left].
    apply (trails_ok_advanced observe_tt t (histories st)); [assumption|].
    intros k. destruct (in_dec_string k TARGET_PLANETS) as [Hk|Hk].
    + right. now apply Hin.
    + left. now apply Hout.
  - assert (Hnd : NoDup pre).
    { pose proof target_planets_nodup as H. rewrite Hsplit in H.
      now apply NoDup_app_remove_r in H. }
    rewrite Hsplit.
    destruct (update_loop_unresolved observe_tt t pre n post st0 Hnd)
      as (st1 & -> & _ & Hin & Hout & _).
    { intros m Hm. apply Hkeys. rewrite Hsplit. apply in_or_app. now left. }
    { intros m Hm. specialize (Hpre m Hm).
      destruct (observe_tt m t); [discriminate|discriminate]. }
    { destruct (observe_tt n t); [discriminate|reflexivity]. }
    cbn [fst snd]. split; [|now right].
    apply (trails_ok_advanced observe_tt t (histories st)); [assumption|].
    intros k. destruct (in_dec_string k pre) as [Hk|Hk].
    + right. now apply Hin.
    + left. now apply Hout.
Qed.

Lemma initial_trails_ok : trails_ok (histories initial_state).
Proof.
  unfold initial_state. cbn [histories]. split.
  - intros name Hin. now rewrite (dict_get_map_const _ _ _ Hin).
  - intros name tr Hget. apply dict_get_map_const_inv in Hget. subst tr.
    cbn [trail_x trail_y List.length]. split; [reflexivity|apply Nat.le_0_l].
Qed.

Lemma update_keeps_trails_bounded_witness :
  trails_ok (histories (snd (update (fixed_until 1000) 0 0 initial_state))) /\
  (fst (update (fixed_until 1000) 0 0 initial_state) = Done frame_artists \/
   fst (update (fixed_until 1000) 0 0 initial_state) = Failed EphemerisError).
Proof.
  apply (update_keeps_trails_bounded (fixed_until 1000) 0 0 initial_state).
  apply initial_trails_ok.
Defined.

(** The setup loop finds a colour for every target planet and leaves
    the trails of [initial_state]. *)
Lemma setup_histories_initial :
  setup_histories TARGET_PLANETS [] = Done (histories initial_state).
Proof. reflexivity. Qed.

(* ------------------------------------------------------------------ *)
(** ** Successive frames *)

Lemma slide_trail_frames (g : nat -> R) (xs : list R) (n : nat) :
  List.length xs = Nat.min n TRAIL_LENGTH ->
  slide xs (map g (trail_frames n)) (g (S n)) = map g (trail_frames (S n)).
Proof.
  unfold slide, trail_frames.
  assert (HL : (0 < TRAIL_LENGTH)%nat) by (unfold TRAIL_LENGTH; lia).
  revert HL. generalize TRAIL_LENGTH. intros L HL Hlen. rewrite Hlen.
  destruct (Nat.ltb_spec L (S (Nat.min n L))) as [Hlt|Hge].
  - assert (Hn : (L <= n)%nat) by lia.
    rewrite (Nat.min_r n L) by lia. rewrite (Nat.min_r (S n) L) by lia.
    destruct L as [|L']; [lia|].
    replace (S n - S L')%nat with (S (n - S L')) by lia.
    set (a := S (n - S L')).
    change (seq a (S L')) with (a :: seq (S a) L').
    cbn [map app tl]. rewrite (seq_S L' (S a)), map_app. cbn [map].
    do 3 f_equal. unfold a. lia.
  - assert (Hn : (n < L)%nat) by lia.
    rewrite (Nat.min_l n L) by lia. rewrite (Nat.min_l (S n) L) by lia.
    rewrite !Nat.sub_diag. rewrite (seq_S n 1), map_app. reflexivity.
Qed.

Lemma length_trail_frames (n : nat) :
  List.length (trail_frames n) = Nat.min n TRAIL_LENGTH.
Proof. unfold trail_frames. apply length_seq. Qed.

Section Run.

Variable observe_tt : string -> R -> option (R * R * R).
Variable start_tt : R.

Lemma advance_trail_shown (n : nat) (name : string) (h : trail) :
  observe_tt name (start_tt + DAYS_PER_FRAME * INR (S n)) <> None ->
  advance_trail observe_tt (start_tt + DAYS_PER_FRAME * INR (S n)) name h =
  mkTrail
    (slide (trail_x h) (trail_x h) (fst (shown observe_tt start_tt name (S n))))
    (slide (trail_x h) (trail_y h) (snd (shown observe_tt start_tt name (S n)))).
Proof.
  intros Hobs. unfold advance_trail, shown.
  destruct (observe_tt name (start_tt + DAYS_PER_FRAME * INR (S n)))
    as [[[rx ry] rz]|]; [reflexivity|congruence].
Qed.

(** The state after [n] frames that all resolve. *)
Lemma run_frames_state (n : nat) :
  frames_resolve observe_tt start_tt n ->
  exists st,
    run_frames observe_tt start_tt n initial_state = (Done tt, st) /\
    current_days st = DAYS_PER_FRAME * INR n /\
    (forall name, ~ In name TARGET_PLANETS ->
       dict_get (histories st) name = None) /\
    forall name, In name TARGET_PLANETS ->
      dict_get (histories st) name =
      Some (mkTrail
              (map (fun k => fst (shown observe_tt start_tt name k))
                   (trail_frames n))
              (map (fun k => snd (shown observe_tt start_tt name k))
                   (trail_frames n))).
Proof.
  induction n as [|n IH]; intros Hres.
  - exists initial_state. split; [reflexivity|]. split; [cbn; ring|]. split.
    + intros name Hout. unfold initial_state. cbn [histories].
      destruct (dict_get _ name) as [tr|] eqn:E; [|reflexivity].
      exfalso. apply Hout. clear Hout.
      revert E. generalize TARGET_PLANETS. intros l.
      induction l as [|m l IHl]; cbn [map dict_get]; [discriminate|].
      destruct (String.eqb m name) eqn:Em.
      * apply String.eqb_eq in Em. now left.
      * intros E. right. now apply IHl.
    + intros name Hin. unfold initial_state. cbn [histories].
      now rewrite (dict_get_map_const _ _ _ Hin).
  - destruct IH as (st & Hrun & Hcd & Hnone & Htrails).
    { intros k name Hk. apply Hres. lia. }
    assert (Ht : start_tt + (current_days st + DAYS_PER_FRAME)
                 = start_tt + DAYS_PER_FRAME * INR (S n)).
    { rewrite Hcd, S_INR. ring. }
    assert (Hobs : forall name, In name TARGET_PLANETS ->
              observe_tt name (start_tt + DAYS_PER_FRAME * INR (S n)) <> None).
    { intros name Hin. apply Hres; [lia|assumption]. }
    destruct (update_loop_resolved observe_tt
                (start_tt + DAYS_PER_FRAME * INR (S n)) TARGET_PLANETS
                (mkAnim (current_days st + DAYS_PER_FRAME) (histories st)
                        (draw_calls st)) target_planets_nodup)
      as (st1 & Hloop & Hcd1 & Hin1 & Hout1 & _).
    { intros name Hin. cbn [histories]. rewrite (Htrails name Hin). discriminate. }
    { exact Hobs. }
    cbn [current_days histories] in Hcd1, Hin1, Hout1.
    eexists. split.
    + cbn [run_frames]. rewrite (abind_done _ _ _ _ _ Hrun).
      unfold abind at 1. rewrite update_unfold, Ht, Hloop. reflexivity.
    + cbn [current_days histories]. split; [|split].
      * rewrite Hcd1, Hcd, S_INR. ring.
      * intros name Hout. rewrite (Hout1 name Hout). now apply Hnone.
      * intros name Hin. rewrite (Hin1 name Hin), (Htrails name Hin).
        cbn [option_map]. rewrite (advance_trail_shown n name _ (Hobs name Hin)).
        cbn [trail_x trail_y].
        rewrite (slide_trail_frames
                   (fun k => fst (shown observe_tt start_tt name k)))
          by (rewrite length_map; apply length_trail_frames).
        rewrite (slide_trail_frames
                   (fun k => snd (shown observe_tt start_tt name k)))
          by (rewrite length_map; apply length_trail_frames).
        reflexivity.
Qed.

End Run.

Lemma in_trail_frames (n k : nat) :
  In k (trail_frames n) <->
  (1 <= k <= n)%nat /\ (n < k + TRAIL_LENGTH)%nat.
Proof. unfold trail_frames. rewrite in_seq. lia. Qed.

Lemma fixed_frames_resolve : frames_resolve (fixed_until 1000) 0 60.
Proof.
  intros k name Hk _. unfold fixed_until, DAYS_PER_FRAME.
  destruct (Rle_dec (0 + 5 * INR k) 1000) as [_|Hn]; [discriminate|].
  exfalso. apply Hn.
  assert (INR k <= INR 60) by (apply le_INR; lia).
  replace (INR 60) with 60 in H by (cbn; ring). lra.
Qed.

(** X16: after [n] successive frames from start-up that all resolve,
    the clock stands at n * DAYS_PER_FRAME and the trail of every
    target planet holds, oldest first, the exaggerated positions of the
    frames k with 1 <= k <= n and n < k + TRAIL_LENGTH, that is of the
    last min(n, TRAIL_LENGTH) frames; the position of frame k is the
    one at the epoch start + k * DAYS_PER_FRAME. *)
Theorem trails_after_frames
        (observe_tt : string -> R -> option (R * R * R)) (start_tt : R)
        (n : nat) :
  frames_resolve observe_tt start_tt n ->
  exists st,
    run_frames observe_tt start_tt n initial_state = (Done tt, st) /\
    current_days st = DAYS_PER_FRAME * INR n /\
    (forall k, In k (trail_frames n) <->
               (1 <= k <= n)%nat /\ (n < k + TRAIL_LENGTH)%nat) /\
    forall name, In name TARGET_PLANETS ->
      exists tr,
        dict_get (histories st) name = Some tr /\
        trail_x tr = map (fun k => fst (shown observe_tt start_tt name k))
                         (trail_frames n) /\
        trail_y tr = map (fun k => snd (shown observe_tt start_tt name k))
                         (trail_frames n) /\
        List.length (trail_x tr) = Nat.min n TRAIL_LENGTH /\
        List.length (trail_y tr) = Nat.min n TRAIL_LENGTH.
Proof.
  intros Hres.
  destruct (run_frames_state observe_tt start_tt n Hres)
    as (st & Hrun & Hcd & _ & Htrails).
  exists st. split; [exact Hrun|]. split; [exact Hcd|].
  split; [intros k; apply in_trail_frames|].
  intros name Hin. eexists. split; [apply (Htrails name Hin)|].
  cbn [trail_x trail_y]. rewrite !length_map, length_trail_frames.
  now repeat split.
Qed.

Lemma trails_after_frames_witness :
  exists st,
    run_frames (fixed_until 1000) 0 60 initial_state = (Done tt, st) /\
    current_days st = DAYS_PER_FRAME * INR 60 /\
    (forall k, In k (trail_frames 60) <->
               (1 <= k <= 60)%nat /\ (60 < k + TRAIL_LENGTH)%nat) /\
    forall name, In name TARGET_PLANETS ->
      exists tr,
        dict_get (histories st) name = Some tr /\
        trail_x tr = map (fun k => fst (shown (fixed_until 1000) 0 name k))
                         (trail_frames 60) /\
        trail_y tr = map (fun k => snd (shown (fixed_until 1000) 0 name k))
                         (trail_frames 60) /\
        List.length (trail_x tr) = Nat.min 60 TRAIL_LENGTH /\
        List.length (trail_y tr) = Nat.min 60 TRAIL_LENGTH.
Proof.
  apply (trails_after_frames (fixed_until 1000) 0 60).
  apply fixed_frames_resolve.
Defined.

Lemma log1p_le (a b : R) : 0 <= a -> a <= b -> log1p a <= log1p b.
Proof.
  intros Ha [Hlt| ->]; [|lra]. left. now apply log1p_lt.
Qed.

Lemma exaggerate_within (x y max_radius : R) :
  0 < max_radius -> hypot x y <= max_radius ->
  hypot (fst (radial_exaggerate x y max_radius))
        (snd (radial_exaggerate x y max_radius)) <= max_radius.
Proof.
  intros HM Hr. rewrite exaggerated_radius by assumption.
  pose proof (hypot_nonneg x y) as H0.
  assert (HlM : 0 < log1p max_radius) by now apply log1p_pos.
  pose proof (log1p_le _ _ H0 Hr) as Hle.
  assert (Hq : log1p (hypot x y) / log1p max_radius <= 1).
  { replace 1 with (log1p max_radius / log1p max_radius) by (field; lra).
    apply Rmult_le_compat_r; [left; now apply Rinv_0_lt_compat|assumption]. }
  apply Rle_trans with (1 * max_radius); [|lra].
  apply Rmult_le_compat_r; lra.
Qed.

Lemma combine_map_fst_snd {A} (f : A -> R * R) (l : list A) :
  combine (map (fun k => fst (f k)) l) (map (fun k => snd (f k)) l) = map f l.
Proof.
  induction l as [|a l IH]; [reflexivity|].
  cbn [map combine]. rewrite IH. now destruct (f a).
Qed.

(** X17: when the raw positions of the frames lie within AXIS_LIMIT of
    the Sun, every point on every trail lies within the plot limits:
    the radius of the drawn point is at most AXIS_LIMIT. *)
Theorem trails_stay_within_axes
        (observe_tt : string -> R -> option (R * R * R)) (start_tt : R)
        (n : nat) :
  frames_resolve observe_tt start_tt n ->
  (forall name k rx ry rz,
      observe_tt name (start_tt + DAYS_PER_FRAME * INR k) = Some (rx, ry, rz) ->
      hypot rx ry <= AXIS_LIMIT) ->
  exists st,
    run_frames observe_tt start_tt n initial_state = (Done tt, st) /\
    forall name tr, dict_get (histories st) name = Some tr ->
      Forall (fun p => hypot (fst p) (snd p) <= AXIS_LIMIT)
             (combine (trail_x tr) (trail_y tr)).
Proof.
  intros Hres Hraw.
  destruct (run_frames_state observe_tt start_tt n Hres)
    as (st & Hrun & _ & Hnone & Htrails).
  exists st. split; [exact Hrun|]. intros name tr Hget.
  destruct (in_dec_string name TARGET_PLANETS) as [Hin|Hout].
  - rewrite (Htrails name Hin) in Hget. apply Some_inj in Hget. subst tr.
    cbn [trail_x trail_y]. rewrite combine_map_fst_snd, Forall_map.
    apply Forall_forall. intros k _. unfold shown.
    destruct (observe_tt name (start_tt + DAYS_PER_FRAME * INR k))
      as [[[rx ry] rz]|] eqn:E.
    + apply exaggerate_within; [unfold AXIS_LIMIT; lra|].
      now apply (Hraw name k rx ry rz).
    + cbn [fst snd]. rewrite hypot_0_0. unfold AXIS_LIMIT. lra.
  - rewrite (Hnone name Hout) in Hget. discriminate.
Qed.

Lemma trails_stay_within_axes_witness :
  exists st,
    run_frames (fixed_until 1000) 0 60 initial_state = (Done tt, st) /\
    forall name tr, dict_get (histories st) name = Some tr ->
      Forall (fun p => hypot (fst p) (snd p) <= AXIS_LIMIT)
             (combine (trail_x tr) (trail_y tr)).
Proof.
  apply (trails_stay_within_axes (fixed_until 1000) 0 60).
  - apply fixed_frames_resolve.
  - intros name k rx ry rz. unfold fixed_until.
    destruct (Rle_dec _ _); [|discriminate].
    intros H. apply Some_inj in H.
    assert (rx = 30 /\ ry = 0) as [-> ->] by (split; congruence).
    unfold hypot, AXIS_LIMIT.
    replace (30 * 30 + 0 * 0) with (30 * 30) by ring.
    rewrite sqrt_square; lra.
Defined.

(* ------------------------------------------------------------------ *)
(** ** The frame theorems at concrete inputs *)

Lemma initial_has_trails (name : string) :
  In name TARGET_PLANETS -> dict_get (histories initial_state) name <> None.
Proof. apply initial_trails_ok. Qed.

Lemma update_frame_resolved_witness :
  exists st',
    update (fixed_until 1000) 0 0 initial_state = (Done frame_artists, st') /\
    current_days st' = current_days initial_state + DAYS_PER_FRAME /\
    (forall name, In name TARGET_PLANETS ->
       dict_get (histories st') name
       = option_map
           (advance_trail (fixed_until 1000)
              (0 + (current_days initial_state + DAYS_PER_FRAME)) name)
           (dict_get (histories initial_state) name)) /\
    (forall name, ~ In name TARGET_PLANETS ->
       dict_get (histories st') name
       = dict_get (histories initial_state) name) /\
    draw_calls st'
    = draw_calls initial_state ++
      flat_map (planet_calls (fixed_until 1000)
                  (0 + (current_days initial_state + DAYS_PER_FRAME))
                  (histories initial_state)) TARGET_PLANETS ++
      [SetText (0 + (current_days initial_state + DAYS_PER_FRAME))].
Proof.
  apply (update_frame_resolved (fixed_until 1000) 0 0 initial_state).
  - apply initial_has_trails.
  - intros name _. unfold fixed_until, initial_state, DAYS_PER_FRAME.
    cbn [current_days].
    destruct (Rle_dec (0 + (0 + 5)) 1000) as [_|Hn]; [discriminate|].
    exfalso. apply Hn. lra.
Defined.

Lemma update_frame_unresolved_witness :
  exists st',
    update (without_planet "mars") 0 0 initial_state
    = (Failed EphemerisError, st') /\
    current_days st' = current_days initial_state + DAYS_PER_FRAME /\
    (forall name, In name ["mercury"; "venus"; "earth"]%string ->
       dict_get (histories st') name
       = option_map
           (advance_trail (without_planet "mars")
              (0 + (current_days initial_state + DAYS_PER_FRAME)) name)
           (dict_get (histories initial_state) name)) /\
    (forall name, ~ In name ["mercury"; "venus"; "earth"]%string ->
       dict_get (histories st') name
       = dict_get (histories initial_state) name) /\
    draw_calls st'
    = draw_calls initial_state ++
      flat_map (planet_calls (without_planet "mars")
                  (0 + (current_days initial_state + DAYS_PER_FRAME))
                  (histories initial_state))
               ["mercury"; "venus"; "earth"]%string.
Proof.
  apply (update_frame_unresolved (without_planet "mars") 0 0 initial_state
           ["mercury"; "venus"; "earth"]%string "mars"
           ["jupiter barycenter"; "saturn barycenter";
            "uranus barycenter"; "neptune barycenter"]%string).
  - reflexivity.
  - intros name Hin. apply initial_has_trails.
    unfold TARGET_PLANETS. cbn [In] in *. tauto.
  - intros name [<-|[<-|[<-|[]]]]; unfold without_planet; cbn [String.eqb
      Ascii.eqb Bool.eqb]; discriminate.
  - reflexivity.
Defined.
